(** * The nRF51 quadrature-decoder drivers of microbit-dal

    A shallow embedding of [source/drivers/MicroBitQuadratureDecoder.cpp]
    and its header.  The sources hold two drivers for the one QDEC
    peripheral: [MicroBitQuadratureDecoder] (configuration kept as bits of
    the component's [status] byte) and [MicroBitQDec] (configuration kept in
    [bool] members, taken from a [QDecExtraConfig]).  Both are embedded, each
    in a module of its own name, over one model of the world they share:
    the [NRF_QDEC] register block, the system timer's component table and
    the chronological log of every access made to either of them. *)

From Stdlib Require Import ZArith List Bool Lia.
Import ListNotations.
Open Scope Z_scope.

(** ** Fixed-width integers

    Values are kept in [Z]; every store into a C++ object of a fixed width
    is written out as the reduction it performs (the target is a 32-bit
    Cortex-M0: [int] is 32 bits wide, two's complement). *)

Definition uint8_t (x : Z) : Z := x mod 2 ^ 8.
Definition uint16_t (x : Z) : Z := x mod 2 ^ 16.
Definition uint32_t (x : Z) : Z := x mod 2 ^ 32.
Definition int32_t (x : Z) : Z := (x + 2 ^ 31) mod 2 ^ 32 - 2 ^ 31.
Definition int64_t (x : Z) : Z := (x + 2 ^ 63) mod 2 ^ 64 - 2 ^ 63.

Definition UINT16_MAX : Z := 65535.

(** [(x & mask) != 0] *)
Definition test_flag (x mask : Z) : bool := negb (Z.land x mask =? 0).

(** ** Constants of the header *)

Definition QDEC_STATUS_USING_SYSTEM_TICK : Z := 0x02.
Definition QDEC_STATUS_USING_DEBOUNCE : Z := 0x04.
Definition QDEC_STATUS_LED_ACTIVE_LOW : Z := 0x08.

(** Modelled from the spec: [MicroBitComponent.h], [ErrorNo.h],
    [MicroBitPin.h] and mbed's [PinNames.h] are not among the sources.
    The spec's [running] flag ("true between a successful start() and a
    stop()") is the bit [MICROBIT_COMPONENT_RUNNING] of the component's
    8-bit [status], a bit apart from the three [QDEC_STATUS_*] bits above;
    the result codes are the spec's [Ok], [Busy] and [InvalidParameter];
    [NC] is the "not connected" sentinel of a pin name and
    [MICROBIT_PIN_EVENT_NONE] the event mode that switches a pin's
    edge events off. *)
Definition MICROBIT_COMPONENT_RUNNING : Z := 0x01.

Inductive ErrorCode : Set :=
| MICROBIT_OK
| MICROBIT_INVALID_PARAMETER
| MICROBIT_BUSY.

Definition PinName : Set := Z.
Definition NC : PinName := -1.
Definition MICROBIT_PIN_EVENT_NONE : Z := 0.

(** A [MicroBitPin&]: the driver only ever reads the pin's [name]. *)
Record MicroBitPin : Set := { name : PinName }.

(** [MicroBitPin pinNC(0, NC, PIN_CAPABILITY_DIGITAL)], the static member of
    both classes. *)
Definition pinNC : MicroBitPin := {| name := NC |}.

(** Modelled from the spec: [MicroBitCompat.h], which declares [min], is not
    among the sources.  "adds it to errorCount with saturation at the
    counter's maximum representable value": [min] returns the smaller of
    two [int]s. *)
Definition min (a b : Z) : Z := if a <? b then a else b.

(** ** The world outside an instance *)

(** The registers of [NRF_QDEC] that the drivers name, and the two
    accumulators [ACC] and [ACCDBL] behind the read registers. *)
Inductive Reg : Set :=
| ENABLE | SHORTS | INTENCLR | LEDPOL | SAMPLEPER | REPORTPER
| PSELLED | PSELA | PSELB | DBFEN | LEDPRE
| TASKS_START | TASKS_STOP | TASKS_READCLRACC
| ACC | ACCDBL | ACCREAD | ACCDBLREAD.

Definition Reg_eqb (a b : Reg) : bool :=
  match a, b with
  | ENABLE, ENABLE | SHORTS, SHORTS | INTENCLR, INTENCLR | LEDPOL, LEDPOL
  | SAMPLEPER, SAMPLEPER | REPORTPER, REPORTPER | PSELLED, PSELLED
  | PSELA, PSELA | PSELB, PSELB | DBFEN, DBFEN | LEDPRE, LEDPRE
  | TASKS_START, TASKS_START | TASKS_STOP, TASKS_STOP
  | TASKS_READCLRACC, TASKS_READCLRACC
  | ACC, ACC | ACCDBL, ACCDBL | ACCREAD, ACCREAD
  | ACCDBLREAD, ACCDBLREAD => true
  | _, _ => false
  end.

(** The register block: a 32-bit word per register. *)
Definition NRF_QDEC_Type : Type := Reg -> Z.

Definition upd (f : NRF_QDEC_Type) (r : Reg) (v : Z) : NRF_QDEC_Type :=
  fun r' => if Reg_eqb r r' then v else f r'.

(** A [MicroBitComponent*]: the address of an instance. *)
Definition Component : Set := nat.

(** What the outside sees of a driver, in the order it happens. *)
Inductive Event : Type :=
| RegWrite (r : Reg) (v : Z)
| RegRead (r : Reg)
| TimerAdd (c : Component)
| TimerRemove (c : Component)
| PinEventOn (pin : PinName) (eventType : Z).

Record World : Type := mkWorld {
  NRF_QDEC : NRF_QDEC_Type;
  systemTickComponents : list Component;
  trace : list Event
}.

Definition log (e : Event) (w : World) : World :=
  mkWorld (NRF_QDEC w) (systemTickComponents w) (trace w ++ [e]).

(** Modelled from the spec: the peripheral itself is hardware.  "a 'clear
    accumulators' trigger, a signed transition-delta read register, and a
    double-transition-count read register": triggering [TASKS_READCLRACC]
    moves [ACC] and [ACCDBL] into [ACCREAD] and [ACCDBLREAD] and clears the
    two accumulators; every other register keeps the 32-bit word last
    written to it. *)
Definition hw_write (r : Reg) (v : Z) (q : NRF_QDEC_Type) : NRF_QDEC_Type :=
  match r with
  | TASKS_READCLRACC =>
      if uint32_t v =? 0 then q
      else upd (upd (upd (upd q ACCREAD (q ACC)) ACCDBLREAD (q ACCDBL))
                      ACC 0) ACCDBL 0
  | _ => upd q r (uint32_t v)
  end.

(** Modelled from the spec: the encoder moves between two polls; the
    hardware has then accumulated the signed delta [d] and the
    double-transition count [e] ("a sequence of simulated hardware
    drains"), each held as a 32-bit word. *)
Definition hw_accumulate (d e : Z) (w : World) : World :=
  mkWorld (upd (upd (NRF_QDEC w) ACC (uint32_t d)) ACCDBL (uint32_t e))
          (systemTickComponents w) (trace w).

(** ** A state monad over the world *)

Definition M (A : Type) : Type := World -> A * World.

Definition ret {A : Type} (a : A) : M A := fun w => (a, w).

Definition bind {A B : Type} (m : M A) (k : A -> M B) : M B :=
  fun w => let (a, w') := m w in k a w'.

Notation "x <- m ;; k" := (bind m (fun x => k))
  (at level 61, m at next level, right associativity).
Notation "m ;; k" := (bind m (fun _ => k))
  (at level 61, right associativity).

(** [NRF_QDEC->r = v] *)
Definition reg_write (r : Reg) (v : Z) : M unit :=
  fun w => (tt, mkWorld (hw_write r v (NRF_QDEC w)) (systemTickComponents w)
                        (trace w ++ [RegWrite r (uint32_t v)])).

(** [NRF_QDEC->r] as an rvalue *)
Definition reg_read (r : Reg) : M Z :=
  fun w => (NRF_QDEC w r, log (RegRead r) w).

Fixpoint remove_first (c : Component) (l : list Component) : list Component :=
  match l with
  | [] => []
  | x :: l' => if Nat.eqb x c then l' else x :: remove_first c l'
  end.

(** Modelled from the spec: [MicroBitSystemTimer.cpp] is not among the
    sources.  "Periodic-tick dispatcher: exposes register(component) /
    deregister(component)": a registration adds one entry for the
    component, a deregistration takes one entry of the component away
    when there is one. *)
Definition system_timer_add_component (c : Component) : M unit :=
  fun w => (tt, mkWorld (NRF_QDEC w) (systemTickComponents w ++ [c])
                        (trace w ++ [TimerAdd c])).

Definition system_timer_remove_component (c : Component) : M unit :=
  fun w => (tt, mkWorld (NRF_QDEC w) (remove_first c (systemTickComponents w))
                        (trace w ++ [TimerRemove c])).

(** [pin.eventOn(eventType)]: the pin is a collaborator, the call is
    logged. *)
Definition eventOn (pin : MicroBitPin) (eventType : Z) : M unit :=
  fun w => (tt, log (PinEventOn (name pin) eventType) w).

(** How many entries of the component table point at [c]. *)
Definition registrations (c : Component) (w : World) : nat :=
  count_occ Nat.eq_dec (systemTickComponents w) c.

(** ** The sample-period search of [start()]

    [for (sampleper = 7; sampleper >= 0; --sampleper)
       if ((128u << sampleper) <= samplePeriod) break;]

    [sampleper_loop k p] is the value [sampleper] has when the loop is left,
    the loop being entered with [sampleper = k >= 0]: the test either
    breaks at [k], or [sampleper] is decremented; from [k = 0] that gives
    [-1], for which the loop condition fails. *)
Fixpoint sampleper_loop (k : nat) (samplePeriod : Z) : Z :=
  if uint32_t (Z.shiftl 128 (Z.of_nat k)) <=? samplePeriod
  then Z.of_nat k
  else match k with
       | O => -1
       | S k' => sampleper_loop k' samplePeriod
       end.

Definition find_sampleper (samplePeriod : Z) : Z :=
  sampleper_loop 7 samplePeriod.

(** ** [class MicroBitQuadratureDecoder] *)

Module MicroBitQuadratureDecoder.

(** The members, with [status] of the base class [MicroBitComponent]. *)
Record t : Type := mk {
  status : Z;            (* uint8_t, MicroBitComponent *)
  position : Z;          (* int64_t  = 0 *)
  phaseA : MicroBitPin;
  phaseB : MicroBitPin;
  LED : MicroBitPin;
  samplePeriod : Z;      (* uint32_t = 128 *)
  errors : Z;            (* uint16_t = 0 *)
  LEDDelay : Z           (* uint8_t  = 0 *)
}.

Definition set_status (v : Z) (s : t) : t :=
  mk v (position s) (phaseA s) (phaseB s) (LED s)
     (samplePeriod s) (errors s) (LEDDelay s).

Definition set_position (v : Z) (s : t) : t :=
  mk (status s) v (phaseA s) (phaseB s) (LED s)
     (samplePeriod s) (errors s) (LEDDelay s).

Definition set_samplePeriod (v : Z) (s : t) : t :=
  mk (status s) (position s) (phaseA s) (phaseB s) (LED s)
     v (errors s) (LEDDelay s).

Definition set_errors (v : Z) (s : t) : t :=
  mk (status s) (position s) (phaseA s) (phaseB s) (LED s)
     (samplePeriod s) v (LEDDelay s).

Definition running (s : t) : bool :=
  test_flag (status s) MICROBIT_COMPONENT_RUNNING.

Definition usingSystemTick (s : t) : bool :=
  test_flag (status s) QDEC_STATUS_USING_SYSTEM_TICK.

(** [MicroBitQuadratureDecoder(phaseA, phaseB, LED, LEDDelay, flags)] *)
Definition new (phaseA_ phaseB_ LED_ : MicroBitPin) (LEDDelay_ flags : Z)
  : M t :=
  ret (mk (uint8_t (Z.land (uint8_t flags)
                           (Z.lnot MICROBIT_COMPONENT_RUNNING)))
          0 phaseA_ phaseB_ LED_ 128 0 (uint8_t LEDDelay_)).

(** [MicroBitQuadratureDecoder(phaseA, phaseB, flags)] *)
Definition new_noLED (phaseA_ phaseB_ : MicroBitPin) (flags : Z) : M t :=
  ret (mk (uint8_t (Z.land (Z.land (uint8_t flags)
                                   (Z.lnot MICROBIT_COMPONENT_RUNNING))
                           (Z.lnot QDEC_STATUS_LED_ACTIVE_LOW)))
          0 phaseA_ phaseB_ pinNC 128 0 0).

Definition enableSystemTick (this : Component) (s : t) : M t :=
  if negb (usingSystemTick s) then
    let s := set_status
               (uint8_t (Z.lor (status s) QDEC_STATUS_USING_SYSTEM_TICK)) s in
    (if running s then system_timer_add_component this else ret tt) ;;
    ret s
  else ret s.

Definition disableSystemTick (this : Component) (s : t) : M t :=
  let s := set_status
             (uint8_t (Z.land (status s)
                              (Z.lnot QDEC_STATUS_USING_SYSTEM_TICK))) s in
  (if running s then system_timer_remove_component this else ret tt) ;;
  ret s.

Definition setSamplePeriodUs (period : Z) (s : t) : M (ErrorCode * t) :=
  if period <? 128 then ret (MICROBIT_INVALID_PARAMETER, s)
  else ret (MICROBIT_OK, set_samplePeriod period s).

Definition getSamplePeriod (s : t) : Z := samplePeriod s.

(** [start()]; the three [__NOP()] between the pin calls and the clearing
    of the accumulators change nothing that is modelled. *)
Definition start (this : Component) (s : t) : M (ErrorCode * t) :=
  let sampleper := find_sampleper (samplePeriod s) in
  enable <- reg_read ENABLE ;;
  if negb (enable =? 0) || running s then ret (MICROBIT_BUSY, s)
  else
    reg_write SHORTS 0 ;;
    reg_write INTENCLR (Z.lnot 0) ;;
    reg_write LEDPOL
      (if test_flag (status s) QDEC_STATUS_LED_ACTIVE_LOW then 0 else 1) ;;
    reg_write SAMPLEPER sampleper ;;
    reg_write REPORTPER 7 ;;
    reg_write PSELLED (name (LED s)) ;;
    reg_write PSELA (name (phaseA s)) ;;
    reg_write PSELB (name (phaseB s)) ;;
    reg_write DBFEN
      (if test_flag (status s) QDEC_STATUS_USING_DEBOUNCE then 1 else 0) ;;
    reg_write LEDPRE (LEDDelay s) ;;
    (if negb (name (LED s) =? NC)
     then eventOn (LED s) MICROBIT_PIN_EVENT_NONE else ret tt) ;;
    eventOn (phaseA s) MICROBIT_PIN_EVENT_NONE ;;
    eventOn (phaseB s) MICROBIT_PIN_EVENT_NONE ;;
    reg_write TASKS_READCLRACC 1 ;;
    reg_write ENABLE 1 ;;
    reg_write TASKS_START 1 ;;
    let s := set_status
               (uint8_t (Z.lor (status s) MICROBIT_COMPONENT_RUNNING)) s in
    (if usingSystemTick s
     then system_timer_remove_component this else ret tt) ;;
    ret (MICROBIT_OK, s).

Definition stop (this : Component) (s : t) : M t :=
  (if usingSystemTick s
   then system_timer_remove_component this else ret tt) ;;
  if running s then
    reg_write TASKS_STOP 1 ;;
    reg_write ENABLE 0 ;;
    ret (set_status
           (uint8_t (Z.land (status s)
                            (Z.lnot MICROBIT_COMPONENT_RUNNING))) s)
  else ret s.

Definition poll (s : t) : M t :=
  reg_write TASKS_READCLRACC 1 ;;
  accread <- reg_read ACCREAD ;;
  let s := set_position (int64_t (position s + int32_t accread)) s in
  accdblread <- reg_read ACCDBLREAD ;;
  ret (set_errors
         (uint16_t (min UINT16_MAX
                        (int32_t (uint32_t (errors s + accdblread))))) s).

Definition resetPosition (position_ : Z) (s : t) : M t :=
  ret (set_position position_ s).

Definition getPosition (s : t) : Z := position s.

Definition getErrors (s : t) : Z := errors s.

(** [~MicroBitQuadratureDecoder()] *)
Definition delete (this : Component) (s : t) : M t := stop this s.

Definition systemTick (s : t) : M t := poll s.

(** [n] polls, the hardware having accumulated the [n] given pairs of
    delta and double-transition count, one before each poll. *)
Fixpoint polls (drains : list (Z * Z)) (s : t) : M t :=
  match drains with
  | [] => ret s
  | (d, e) :: rest =>
      fun w => let (s', w') := poll s (hw_accumulate d e w) in
               polls rest s' w'
  end.

(** [n] times [stop()] followed by [start()]. *)
Fixpoint cycles (n : nat) (this : Component) (s : t) : M t :=
  match n with
  | O => ret s
  | S n' => s1 <- stop this s ;;
            r <- start this s1 ;;
            cycles n' this (snd r)
  end.

End MicroBitQuadratureDecoder.

(** ** [class MicroBitQDec] *)

(** [struct QDecExtraConfig] and its default member initialisers. *)
Record QDecExtraConfig : Set := {
  cfg_samplePeriod : Z;     (* uint32_t = 128 *)
  cfg_LEDDelay : Z;         (* uint8_t  = 0 *)
  cfg_activeHighLED : bool; (* = true *)
  cfg_useDebounce : bool    (* = false *)
}.

Definition defaults : QDecExtraConfig :=
  {| cfg_samplePeriod := 128; cfg_LEDDelay := 0;
     cfg_activeHighLED := true; cfg_useDebounce := false |}.

Module MicroBitQDec.

Record t : Type := mk {
  status : Z;            (* uint8_t, MicroBitComponent *)
  phaseA : MicroBitPin;
  phaseB : MicroBitPin;
  LED : MicroBitPin;
  samplePeriod : Z;      (* uint32_t *)
  position : Z;          (* int64_t *)
  errors : Z;            (* uint32_t *)
  LEDDelay : Z;          (* uint8_t *)
  activeHighLED : bool;  (* = true *)
  useSystemTick : bool;  (* = false *)
  useDebounce : bool     (* = false *)
}.

Definition set_status (v : Z) (s : t) : t :=
  mk v (phaseA s) (phaseB s) (LED s) (samplePeriod s) (position s)
     (errors s) (LEDDelay s) (activeHighLED s) (useSystemTick s)
     (useDebounce s).

Definition set_position (v : Z) (s : t) : t :=
  mk (status s) (phaseA s) (phaseB s) (LED s) (samplePeriod s) v
     (errors s) (LEDDelay s) (activeHighLED s) (useSystemTick s)
     (useDebounce s).

Definition set_errors (v : Z) (s : t) : t :=
  mk (status s) (phaseA s) (phaseB s) (LED s) (samplePeriod s) (position s)
     v (LEDDelay s) (activeHighLED s) (useSystemTick s) (useDebounce s).

Definition set_useSystemTick (v : bool) (s : t) : t :=
  mk (status s) (phaseA s) (phaseB s) (LED s) (samplePeriod s) (position s)
     (errors s) (LEDDelay s) (activeHighLED s) v (useDebounce s).

Definition running (s : t) : bool :=
  test_flag (status s) MICROBIT_COMPONENT_RUNNING.

(** [MicroBitQDec(phaseA, phaseB, LED = pinNC, cfg = NULL)].  The
    constructor assigns [samplePeriod], [activeHighLED], [useDebounce],
    [LEDDelay] and [position]; [useSystemTick] has its default member
    initialiser; [errors] has none and is not assigned, so it keeps what
    the object's storage held, here [errors_storage].  Modelled from the
    spec: the base class constructor is not among the sources; "the
    instance starts in the free, not running state": [status] is 0. *)
Definition new (errors_storage : Z) (phaseA_ phaseB_ LED_ : MicroBitPin)
           (cfg : option QDecExtraConfig) : M t :=
  let cfg := match cfg with None => defaults | Some c => c end in
  ret (mk 0 phaseA_ phaseB_ LED_
          (uint32_t (cfg_samplePeriod cfg))
          0
          (uint32_t errors_storage)
          (uint8_t (cfg_LEDDelay cfg))
          (cfg_activeHighLED cfg)
          false
          (cfg_useDebounce cfg)).

Definition enableSystemTick (this : Component) (s : t) : M t :=
  if negb (useSystemTick s) then
    let s := set_useSystemTick true s in
    (if running s then system_timer_add_component this else ret tt) ;;
    ret s
  else ret s.

Definition disableSystemTick (this : Component) (s : t) : M t :=
  let s := set_useSystemTick false s in
  (if running s then system_timer_remove_component this else ret tt) ;;
  ret s.

(** [start()], the [__NOP()]s left out as above.  The call to the system
    timer comes before [TASKS_START] here. *)
Definition start (this : Component) (s : t) : M (ErrorCode * t) :=
  let sampleper := find_sampleper (samplePeriod s) in
  enable <- reg_read ENABLE ;;
  if negb (enable =? 0) || running s then ret (MICROBIT_BUSY, s)
  else
    reg_write SHORTS 0 ;;
    reg_write INTENCLR (Z.lnot 0) ;;
    reg_write LEDPOL (if activeHighLED s then 1 else 0) ;;
    reg_write SAMPLEPER sampleper ;;
    reg_write REPORTPER 7 ;;
    reg_write PSELLED (name (LED s)) ;;
    reg_write PSELA (name (phaseA s)) ;;
    reg_write PSELB (name (phaseB s)) ;;
    reg_write DBFEN (if useDebounce s then 1 else 0) ;;
    reg_write LEDPRE (LEDDelay s) ;;
    (if negb (name (LED s) =? NC)
     then eventOn (LED s) MICROBIT_PIN_EVENT_NONE else ret tt) ;;
    eventOn (phaseA s) MICROBIT_PIN_EVENT_NONE ;;
    eventOn (phaseB s) MICROBIT_PIN_EVENT_NONE ;;
    reg_write TASKS_READCLRACC 1 ;;
    reg_write ENABLE 1 ;;
    (if useSystemTick s
     then system_timer_remove_component this else ret tt) ;;
    reg_write TASKS_START 1 ;;
    ret (MICROBIT_OK,
         set_status
           (uint8_t (Z.lor (status s) MICROBIT_COMPONENT_RUNNING)) s).

Definition stop (this : Component) (s : t) : M t :=
  s <- (if running s then
          reg_write TASKS_STOP 1 ;;
          reg_write ENABLE 0 ;;
          ret (set_status
                 (uint8_t (Z.land (status s)
                                  (Z.lnot MICROBIT_COMPONENT_RUNNING))) s)
        else ret s) ;;
  (if useSystemTick s
   then system_timer_remove_component this else ret tt) ;;
  ret s.

Definition poll (s : t) : M t :=
  reg_write TASKS_READCLRACC 1 ;;
  accread <- reg_read ACCREAD ;;
  let s := set_position (int64_t (position s + int32_t accread)) s in
  accdblread <- reg_read ACCDBLREAD ;;
  ret (set_errors (uint32_t (errors s + accdblread)) s).

Definition resetPosition (position_ : Z) (s : t) : M t :=
  ret (set_position position_ s).

Definition getPosition (s : t) : Z := position s.

Definition getErrors (s : t) : Z := errors s.

(** [~MicroBitQDec()] *)
Definition delete (this : Component) (s : t) : M t := stop this s.

Definition systemTick (s : t) : M t := poll s.

Fixpoint polls (drains : list (Z * Z)) (s : t) : M t :=
  match drains with
  | [] => ret s
  | (d, e) :: rest =>
      fun w => let (s', w') := poll s (hw_accumulate d e w) in
               polls rest s' w'
  end.

Fixpoint cycles (n : nat) (this : Component) (s : t) : M t :=
  match n with
  | O => ret s
  | S n' => s1 <- stop this s ;;
            r <- start this s1 ;;
            cycles n' this (snd r)
  end.

End MicroBitQDec.

Module QD := MicroBitQuadratureDecoder.
Module QDec := MicroBitQDec.

(** The world before any driver ran: every register zero, no component
    registered, nothing logged. *)
Definition world0 : World := mkWorld (fun _ => 0) [] [].

(** ** Vocabulary of the statements *)

Definition Zsum (l : list Z) : Z := fold_right Z.add 0 l.

Definition in_int32 (x : Z) : Prop := - 2 ^ 31 <= x < 2 ^ 31.
Definition in_int64 (x : Z) : Prop := - 2 ^ 63 <= x < 2 ^ 63.

(** What the double-transition accumulator can hold without the sum in
    [MicroBitQuadratureDecoder::poll()] leaving the range of [int]. *)
Definition in_accdbl (e : Z) : Prop := 0 <= e <= 2 ^ 31 - 1 - UINT16_MAX.

(** The hardware level [k] is the largest of the eight levels whose period
    [128 * 2^k] does not exceed [p]. *)
Definition largest_level (p k : Z) : Prop :=
  0 <= k <= 7 /\ 128 * 2 ^ k <= p /\
  forall j, k < j <= 7 -> p < 128 * 2 ^ j.

(** The events of a log that are registrations of [c]. *)
Definition adds_of (c : Component) (l : list Event) : list Event :=
  filter (fun e => match e with TimerAdd c' => Nat.eqb c' c | _ => false end) l.

(** The pins and the instance address used in the examples. *)
Definition pinA : MicroBitPin := {| name := 1 |}.
Definition pinB : MicroBitPin := {| name := 2 |}.
Definition pinLED : MicroBitPin := {| name := 3 |}.
Definition this0 : Component := 1%nat.

(** A configuration asking for a period below the hardware floor. *)
Definition cfg_100us : QDecExtraConfig :=
  {| cfg_samplePeriod := 100; cfg_LEDDelay := 0;
     cfg_activeHighLED := true; cfg_useDebounce := false |}.

(** Freshly constructed instances, on a world nothing has touched; the
    storage of the [MicroBitQDec] held zeroes. *)
Definition qd_fresh : QD.t := fst (QD.new pinA pinB pinLED 0 0 world0).
Definition qdec_fresh : QDec.t := fst (QDec.new 0 pinA pinB pinLED None world0).

(** The same instances started, and the world their [start()] left. *)
Definition qd_started : ErrorCode * QD.t * World :=
  QD.start this0 qd_fresh world0.
Definition qdec_started : ErrorCode * QDec.t * World :=
  QDec.start this0 qdec_fresh world0.

(** A started [MicroBitQDec] whose counter has reached [UINT32_MAX]. *)
Definition qdec_full : QDec.t :=
  QDec.set_errors 4294967295 (snd (fst qdec_started)).

(** A stopped [MicroBitQuadratureDecoder] that has moved and counted, and a
    free peripheral whose accumulators are not empty. *)
Definition qd_moved : QD.t :=
  QD.set_errors 7 (QD.set_position 42 qd_fresh).
Definition qdec_moved : QDec.t :=
  QDec.set_errors 7 (QDec.set_position 42 qdec_fresh).
Definition world_dirty : World := hw_accumulate 9 3 world0.

(** ** Several instances on the one peripheral

    Both classes derive from [MicroBitComponent]; a [Driver] is an
    instance of either, and [Method] the member functions a caller can
    reach through it (results of [int] functions are dropped here, as a
    caller would that ignores them). *)

Inductive Driver : Type :=
| QuadratureDecoder (s : QD.t)
| QDecoder (s : QDec.t).

Definition drv_running (d : Driver) : bool :=
  match d with
  | QuadratureDecoder s => QD.running s
  | QDecoder s => QDec.running s
  end.

(** Whether periodic polling is requested. *)
Definition drv_polling (d : Driver) : bool :=
  match d with
  | QuadratureDecoder s => QD.usingSystemTick s
  | QDecoder s => QDec.useSystemTick s
  end.

Definition drv_start (this : Component) (d : Driver) : M (ErrorCode * Driver) :=
  match d with
  | QuadratureDecoder s =>
      r <- QD.start this s ;; ret (fst r, QuadratureDecoder (snd r))
  | QDecoder s =>
      r <- QDec.start this s ;; ret (fst r, QDecoder (snd r))
  end.

Definition drv_stop (this : Component) (d : Driver) : M Driver :=
  match d with
  | QuadratureDecoder s => s' <- QD.stop this s ;; ret (QuadratureDecoder s')
  | QDecoder s => s' <- QDec.stop this s ;; ret (QDecoder s')
  end.

Inductive Method : Type :=
| Start | Stop | Poll | SystemTick
| EnableSystemTick | DisableSystemTick
| ResetPosition (v : Z)
| SetSamplePeriodUs (p : Z).

(** The call [d.m()]; [None] where the class has no such member
    ([MicroBitQDec] has no [setSamplePeriodUs]). *)
Definition invoke (m : Method) (this : Component) (d : Driver)
  : option (M Driver) :=
  match m, d with
  | Start, _ => Some (r <- drv_start this d ;; ret (snd r))
  | Stop, _ => Some (drv_stop this d)
  | Poll, QuadratureDecoder s =>
      Some (s' <- QD.poll s ;; ret (QuadratureDecoder s'))
  | Poll, QDecoder s => Some (s' <- QDec.poll s ;; ret (QDecoder s'))
  | SystemTick, QuadratureDecoder s =>
      Some (s' <- QD.systemTick s ;; ret (QuadratureDecoder s'))
  | SystemTick, QDecoder s =>
      Some (s' <- QDec.systemTick s ;; ret (QDecoder s'))
  | EnableSystemTick, QuadratureDecoder s =>
      Some (s' <- QD.enableSystemTick this s ;; ret (QuadratureDecoder s'))
  | EnableSystemTick, QDecoder s =>
      Some (s' <- QDec.enableSystemTick this s ;; ret (QDecoder s'))
  | DisableSystemTick, QuadratureDecoder s =>
      Some (s' <- QD.disableSystemTick this s ;; ret (QuadratureDecoder s'))
  | DisableSystemTick, QDecoder s =>
      Some (s' <- QDec.disableSystemTick this s ;; ret (QDecoder s'))
  | ResetPosition v, QuadratureDecoder s =>
      Some (s' <- QD.resetPosition v s ;; ret (QuadratureDecoder s'))
  | ResetPosition v, QDecoder s =>
      Some (s' <- QDec.resetPosition v s ;; ret (QDecoder s'))
  | SetSamplePeriodUs p, QuadratureDecoder s =>
      Some (r <- QD.setSamplePeriodUs p s ;; ret (QuadratureDecoder (snd r)))
  | SetSamplePeriodUs p, QDecoder s => None
  end.

(** The instances alive, by address, and the world they share. *)
Record System : Type := mkSystem {
  instances : Component -> option Driver;
  world : World
}.

Definition place (this : Component) (d : option Driver)
           (f : Component -> option Driver) : Component -> option Driver :=
  fun c => if Nat.eqb c this then d else f c.

(** What a program does to the system, one step at a time: construct an
    instance at a free address, call a member of a live one, destroy a
    live one; or the encoder moves. *)
Inductive Step : Type :=
| NewQuadratureDecoder (this : Component) (pA pB pL : MicroBitPin)
                       (LEDDelay flags : Z)
| NewQuadratureDecoder_noLED (this : Component) (pA pB : MicroBitPin)
                             (flags : Z)
| NewQDec (this : Component) (errors_storage : Z) (pA pB pL : MicroBitPin)
          (cfg : option QDecExtraConfig)
| Call (this : Component) (m : Method)
| Delete (this : Component)
| Movement (d e : Z).

Definition construct (this : Component) (c : M Driver) (sys : System)
  : option System :=
  match instances sys this with
  | Some _ => None
  | None => let (d, w) := c (world sys) in
            Some (mkSystem (place this (Some d) (instances sys)) w)
  end.

(** [None]: the step is not one a program can take (address in use, no
    instance at the address, no such member). *)
Definition step (st : Step) (sys : System) : option System :=
  match st with
  | NewQuadratureDecoder this pA pB pL delay flags =>
      construct this (s <- QD.new pA pB pL delay flags ;;
                      ret (QuadratureDecoder s)) sys
  | NewQuadratureDecoder_noLED this pA pB flags =>
      construct this (s <- QD.new_noLED pA pB flags ;;
                      ret (QuadratureDecoder s)) sys
  | NewQDec this g pA pB pL cfg =>
      construct this (s <- QDec.new g pA pB pL cfg ;; ret (QDecoder s)) sys
  | Call this m =>
      match instances sys this with
      | None => None
      | Some d =>
          match invoke m this d with
          | None => None
          | Some c => let (d', w) := c (world sys) in
                      Some (mkSystem (place this (Some d') (instances sys)) w)
          end
      end
  | Delete this =>
      match instances sys this with
      | None => None
      | Some (QuadratureDecoder s) =>
          let (_, w) := QD.delete this s (world sys) in
          Some (mkSystem (place this None (instances sys)) w)
      | Some (QDecoder s) =>
          let (_, w) := QDec.delete this s (world sys) in
          Some (mkSystem (place this None (instances sys)) w)
      end
  | Movement d e => Some (mkSystem (instances sys) (hw_accumulate d e (world sys)))
  end.

Fixpoint run (steps : list Step) (sys : System) : option System :=
  match steps with
  | [] => Some sys
  | st :: rest =>
      match step st sys with
      | None => None
      | Some sys' => run rest sys'
      end
  end.

(** The system at boot: no instance, no component registered, nothing
    logged, the registers holding whatever [q] says. *)
Definition boot (q : NRF_QDEC_Type) : System :=
  mkSystem (fun _ => None) (mkWorld q [] []).

(** At most one instance is running. *)
Definition exclusive (sys : System) : Prop :=
  forall i j di dj,
    instances sys i = Some di -> instances sys j = Some dj ->
    drv_running di = true -> drv_running dj = true -> i = j.

(** While an instance is running the peripheral is enabled. *)
Definition claimed (sys : System) : Prop :=
  forall i d,
    instances sys i = Some d -> drv_running d = true ->
    NRF_QDEC (world sys) ENABLE <> 0.

(** The component table holds an address at most once, and only that of a
    live instance that is running with periodic polling requested. *)
Definition registered_bound (sys : System) : Prop :=
  forall i,
    (registrations i (world sys) <=
     match instances sys i with
     | Some d => if drv_running d && drv_polling d then 1 else 0
     | None => 0
     end)%nat.

(** Every [MicroBitQuadratureDecoder] has a sample period at or above the
    hardware floor. *)
Definition periods_valid (sys : System) : Prop :=
  forall i s,
    instances sys i = Some (QuadratureDecoder s) -> 128 <= QD.samplePeriod s.

(** What one call on the instance at [this] can do to the caller's two
    flags, to [ENABLE] and to the component table: nothing; claim the free
    peripheral; release it; request polling; withdraw the request. *)
Inductive Effect (this : Component) (d : Driver) (w : World)
          (d' : Driver) (w' : World) : Prop :=
| Eff_none :
    drv_running d' = drv_running d -> drv_polling d' = drv_polling d ->
    NRF_QDEC w' ENABLE = NRF_QDEC w ENABLE ->
    systemTickComponents w' = systemTickComponents w ->
    Effect this d w d' w'
| Eff_claim :
    NRF_QDEC w ENABLE = 0 -> drv_running d = false ->
    drv_running d' = true -> drv_polling d' = drv_polling d ->
    NRF_QDEC w' ENABLE <> 0 ->
    systemTickComponents w' =
      (if drv_polling d then remove_first this (systemTickComponents w)
       else systemTickComponents w) ->
    Effect this d w d' w'
| Eff_release :
    drv_running d' = false -> drv_polling d' = drv_polling d ->
    (drv_running d = false -> NRF_QDEC w' ENABLE = NRF_QDEC w ENABLE) ->
    (drv_running d = true -> NRF_QDEC w' ENABLE = 0) ->
    systemTickComponents w' =
      (if drv_polling d then remove_first this (systemTickComponents w)
       else systemTickComponents w) ->
    Effect this d w d' w'
| Eff_request :
    drv_running d' = drv_running d -> drv_polling d' = true ->
    NRF_QDEC w' ENABLE = NRF_QDEC w ENABLE ->
    systemTickComponents w' =
      (if negb (drv_polling d) && drv_running d
       then systemTickComponents w ++ [this] else systemTickComponents w) ->
    Effect this d w d' w'
| Eff_withdraw :
    drv_running d' = drv_running d -> drv_polling d' = false ->
    NRF_QDEC w' ENABLE = NRF_QDEC w ENABLE ->
    systemTickComponents w' =
      (if drv_running d then remove_first this (systemTickComponents w)
       else systemTickComponents w) ->
    Effect this d w d' w'.

(** The bound [registered_bound] puts on the entries of an instance. *)
Definition may_register (d : option Driver) : nat :=
  match d with
  | Some d => if drv_running d && drv_polling d then 1 else 0
  | None => 0
  end.

(** A program exercising both classes on the one peripheral. *)
Definition demo_program : list Step :=
  [ NewQuadratureDecoder 1%nat pinA pinB pinLED 0 QDEC_STATUS_USING_DEBOUNCE;
    NewQDec 2%nat 0 pinA pinB pinNC None;
    Call 1%nat Start; Call 2%nat Start;
    Call 1%nat EnableSystemTick; Call 1%nat (SetSamplePeriodUs 500);
    Movement 3 1; Call 1%nat SystemTick;
    Call 1%nat Stop; Call 2%nat Start; Call 2%nat EnableSystemTick;
    Movement (-7) 0; Call 2%nat Poll;
    Delete 2%nat;
    NewQuadratureDecoder_noLED 2%nat pinA pinB 0; Call 2%nat Start ].

(** A program that sets the sample period of a
    [MicroBitQuadratureDecoder], first to a value that is refused. *)
Definition period_program : list Step :=
  [ NewQuadratureDecoder 1%nat pinA pinB pinLED 0 0;
    Call 1%nat (SetSamplePeriodUs 100);
    Call 1%nat (SetSamplePeriodUs 500) ].

(** The system a program leaves when run from boot (the system at boot
    itself when the program takes a step it cannot take). *)
Definition reached (steps : list Step) (q : NRF_QDEC_Type) : System :=
  match run steps (boot q) with
  | Some sys => sys
  | None => boot q
  end.

(** * Properties *)

(** ** Fixed-width integers and flags *)

Lemma uint32_t_small (x : Z) : 0 <= x < 2 ^ 32 -> uint32_t x = x.
Proof. intros H. unfold uint32_t. now apply Z.mod_small. Qed.

Lemma int32_t_uint32_t (d : Z) : in_int32 d -> int32_t (uint32_t d) = d.
Proof.
  unfold in_int32, int32_t, uint32_t. intros H.
  rewrite Zplus_mod_idemp_l.
  rewrite Z.mod_small; lia.
Qed.

Lemma int64_t_small (x : Z) : in_int64 x -> int64_t x = x.
Proof.
  unfold in_int64, int64_t. intros H. rewrite Z.mod_small; lia.
Qed.

Lemma int64_t_add_l (x y : Z) : int64_t (int64_t x + y) = int64_t (x + y).
Proof.
  unfold int64_t.
  replace ((x + 2 ^ 63) mod 2 ^ 64 - 2 ^ 63 + y + 2 ^ 63)
    with ((x + 2 ^ 63) mod 2 ^ 64 + y) by ring.
  rewrite Zplus_mod_idemp_l. f_equal. f_equal. ring.
Qed.

Lemma uint32_t_add_l (x y : Z) : uint32_t (uint32_t x + y) = uint32_t (x + y).
Proof. unfold uint32_t. now rewrite Zplus_mod_idemp_l. Qed.

Lemma land_pow2 (x n : Z) :
  0 <= n -> Z.land x (2 ^ n) = if Z.testbit x n then 2 ^ n else 0.
Proof.
  intros Hn. apply Z.bits_inj'. intros m Hm.
  rewrite Z.land_spec, Z.pow2_bits_eqb by assumption.
  destruct (Z.eqb_spec n m) as [->|Hne].
  - destruct (Z.testbit x m) eqn:E; cbn.
    + now rewrite Z.pow2_bits_true.
    + now rewrite Z.bits_0.
  - rewrite andb_false_r. destruct (Z.testbit x n).
    + now rewrite Z.pow2_bits_false.
    + now rewrite Z.bits_0.
Qed.

Lemma test_flag_pow2 (x n : Z) :
  0 <= n -> test_flag x (2 ^ n) = Z.testbit x n.
Proof.
  intros Hn. unfold test_flag. rewrite land_pow2 by assumption.
  destruct (Z.testbit x n); cbn.
  - assert (0 < 2 ^ n) by (apply Z.pow_pos_nonneg; lia).
    destruct (Z.eqb_spec (2 ^ n) 0); [lia | reflexivity].
  - reflexivity.
Qed.

Lemma testbit_uint8_t (x n : Z) :
  0 <= n < 8 -> Z.testbit (uint8_t x) n = Z.testbit x n.
Proof. intros H. unfold uint8_t. apply Z.mod_pow2_bits_low. lia. Qed.

(** Setting a bit of [status] sets that flag and no other. *)
Lemma test_flag_set (st n m : Z) :
  0 <= n < 8 -> 0 <= m < 8 ->
  test_flag (uint8_t (Z.lor st (2 ^ n))) (2 ^ m) =
  (test_flag st (2 ^ m) || (n =? m)).
Proof.
  intros Hn Hm.
  rewrite !test_flag_pow2, testbit_uint8_t, Z.lor_spec by lia.
  now rewrite Z.pow2_bits_eqb by lia.
Qed.

(** Clearing a bit of [status] clears that flag and no other. *)
Lemma test_flag_clear (st n m : Z) :
  0 <= n < 8 -> 0 <= m < 8 ->
  test_flag (uint8_t (Z.land st (Z.lnot (2 ^ n)))) (2 ^ m) =
  (test_flag st (2 ^ m) && negb (n =? m)).
Proof.
  intros Hn Hm.
  rewrite !test_flag_pow2, testbit_uint8_t, Z.land_spec by lia.
  now rewrite Z.lnot_spec, Z.pow2_bits_eqb by lia.
Qed.

Lemma RUNNING_pow2 : MICROBIT_COMPONENT_RUNNING = 2 ^ 0.
Proof. reflexivity. Qed.

Lemma SYSTEM_TICK_pow2 : QDEC_STATUS_USING_SYSTEM_TICK = 2 ^ 1.
Proof. reflexivity. Qed.

Lemma LED_ACTIVE_LOW_pow2 : QDEC_STATUS_LED_ACTIVE_LOW = 2 ^ 3.
Proof. reflexivity. Qed.

(** ** The sample-period search *)

Lemma shiftl_128_uint32 (k : nat) :
  (k <= 24)%nat -> uint32_t (Z.shiftl 128 (Z.of_nat k)) = 128 * 2 ^ Z.of_nat k.
Proof.
  intros Hk. rewrite Z.shiftl_mul_pow2 by lia.
  apply uint32_t_small.
  assert (0 < 2 ^ Z.of_nat k) by (apply Z.pow_pos_nonneg; lia).
  assert (2 ^ Z.of_nat k <= 2 ^ 24) by (apply Z.pow_le_mono_r; lia).
  change (2 ^ 24) with 16777216 in *. change (2 ^ 32) with 4294967296. lia.
Qed.

(** Below the hardware floor no level passes the test and the loop runs
    out at [-1]. *)
Lemma sampleper_loop_below_floor (k : nat) (p : Z) :
  (k <= 24)%nat -> p < 128 -> sampleper_loop k p = -1.
Proof.
  intros Hk Hp. induction k as [|k IH]; cbn [sampleper_loop].
  - rewrite shiftl_128_uint32 by lia.
    destruct (Z.leb_spec (128 * 2 ^ Z.of_nat 0) p) as [H|H];
      [cbn in H; lia | reflexivity].
  - rewrite shiftl_128_uint32 by lia.
    assert (0 < 2 ^ Z.of_nat (S k)) by (apply Z.pow_pos_nonneg; lia).
    destruct (Z.leb_spec (128 * 2 ^ Z.of_nat (S k)) p) as [H'|H'];
      [lia | apply IH; lia].
Qed.

(** From the floor up the loop breaks at the largest level that fits. *)
Lemma sampleper_loop_largest (k : nat) (p : Z) :
  (k <= 24)%nat -> 128 <= p ->
  let r := sampleper_loop k p in
  0 <= r <= Z.of_nat k /\ 128 * 2 ^ r <= p /\
  forall j, r < j <= Z.of_nat k -> p < 128 * 2 ^ j.
Proof.
  intros Hk Hp. induction k as [|k IH]; cbn [sampleper_loop].
  - rewrite shiftl_128_uint32 by lia.
    destruct (Z.leb_spec (128 * 2 ^ Z.of_nat 0) p) as [H|H].
    + cbn. repeat split; try lia.
    + cbn in H. lia.
  - rewrite shiftl_128_uint32 by lia.
    destruct (Z.leb_spec (128 * 2 ^ Z.of_nat (S k)) p) as [H|H].
    + cbv zeta. repeat split; try lia.
    + destruct IH as (Hr & Hle & Hmax); [lia|].
      cbv zeta. repeat split; try lia.
      intros j Hj.
      destruct (Z.eq_dec j (Z.of_nat (S k))) as [->|Hne]; [exact H|].
      apply Hmax. lia.
Qed.

Lemma find_sampleper_largest (p : Z) :
  128 <= p -> largest_level p (find_sampleper p).
Proof.
  intros Hp. unfold largest_level, find_sampleper.
  apply (sampleper_loop_largest 7 p); [lia | exact Hp].
Qed.

Lemma find_sampleper_below_floor (p : Z) :
  p < 128 -> find_sampleper p = -1.
Proof.
  intros Hp. apply sampleper_loop_below_floor; [lia | exact Hp].
Qed.

(** ** The flags of [status] *)

Lemma running_after_set (st : Z) :
  test_flag (uint8_t (Z.lor st MICROBIT_COMPONENT_RUNNING))
            MICROBIT_COMPONENT_RUNNING = true.
Proof.
  etransitivity; [apply (test_flag_set st 0 0); lia | apply orb_true_r].
Qed.

Lemma running_after_clear (st : Z) :
  test_flag (uint8_t (Z.land st (Z.lnot MICROBIT_COMPONENT_RUNNING)))
            MICROBIT_COMPONENT_RUNNING = false.
Proof.
  etransitivity; [apply (test_flag_clear st 0 0); lia | apply andb_false_r].
Qed.

Lemma tick_after_set_running (st : Z) :
  test_flag (uint8_t (Z.lor st MICROBIT_COMPONENT_RUNNING))
            QDEC_STATUS_USING_SYSTEM_TICK =
  test_flag st QDEC_STATUS_USING_SYSTEM_TICK.
Proof.
  etransitivity; [apply (test_flag_set st 0 1); lia | apply orb_false_r].
Qed.

Lemma tick_after_clear_running (st : Z) :
  test_flag (uint8_t (Z.land st (Z.lnot MICROBIT_COMPONENT_RUNNING)))
            QDEC_STATUS_USING_SYSTEM_TICK =
  test_flag st QDEC_STATUS_USING_SYSTEM_TICK.
Proof.
  etransitivity; [apply (test_flag_clear st 0 1); lia | apply andb_true_r].
Qed.

Lemma running_after_set_tick (st : Z) :
  test_flag (uint8_t (Z.lor st QDEC_STATUS_USING_SYSTEM_TICK))
            MICROBIT_COMPONENT_RUNNING =
  test_flag st MICROBIT_COMPONENT_RUNNING.
Proof.
  etransitivity; [apply (test_flag_set st 1 0); lia | apply orb_false_r].
Qed.

Lemma tick_after_set_tick (st : Z) :
  test_flag (uint8_t (Z.lor st QDEC_STATUS_USING_SYSTEM_TICK))
            QDEC_STATUS_USING_SYSTEM_TICK = true.
Proof.
  etransitivity; [apply (test_flag_set st 1 1); lia | apply orb_true_r].
Qed.

(** ** Stepping through the monad *)

Ltac run_M :=
  unfold bind, reg_read, reg_write, eventOn, system_timer_add_component,
    system_timer_remove_component, ret, log;
  cbn [fst snd NRF_QDEC systemTickComponents trace].

Lemma adds_of_app (c : Component) (l l' : list Event) :
  adds_of c (l ++ l') = adds_of c l ++ adds_of c l'.
Proof. apply filter_app. Qed.

Lemma busy_test (enable : Z) (r : bool) :
  enable <> 0 \/ r = true -> negb (enable =? 0) || r = true.
Proof.
  intros [H|H].
  - destruct (Z.eqb_spec enable 0); [contradiction | reflexivity].
  - rewrite H. apply orb_true_r.
Qed.

Lemma count_remove_first_le (c : Component) (l : list Component) :
  (count_occ Nat.eq_dec (remove_first c l) c <= count_occ Nat.eq_dec l c)%nat.
Proof.
  induction l as [|x l IH]; cbn [remove_first count_occ]; [lia|].
  destruct (Nat.eqb_spec x c) as [->|Hne].
  - destruct (Nat.eq_dec c c); [lia | contradiction].
  - cbn [count_occ]. destruct (Nat.eq_dec x c); [contradiction | exact IH].
Qed.

(** ** [start()]: arbitration *)

Lemma QD_start_busy (this : Component) (s : QD.t) (w : World) :
  NRF_QDEC w ENABLE <> 0 \/ QD.running s = true ->
  QD.start this s w = (MICROBIT_BUSY, s, log (RegRead ENABLE) w).
Proof.
  intros H. unfold QD.start. run_M.
  now rewrite (busy_test _ _ H).
Qed.

Lemma QDec_start_busy (this : Component) (s : QDec.t) (w : World) :
  NRF_QDEC w ENABLE <> 0 \/ QDec.running s = true ->
  QDec.start this s w = (MICROBIT_BUSY, s, log (RegRead ENABLE) w).
Proof.
  intros H. unfold QDec.start. run_M.
  now rewrite (busy_test _ _ H).
Qed.

(** What a successful [start()] leaves behind. *)
Lemma QD_start_ok (this : Component) (s : QD.t) (w : World) :
  NRF_QDEC w ENABLE = 0 -> QD.running s = false ->
  exists w',
    QD.start this s w =
      (MICROBIT_OK,
       QD.set_status
         (uint8_t (Z.lor (QD.status s) MICROBIT_COMPONENT_RUNNING)) s,
       w') /\
    NRF_QDEC w' ENABLE = 1 /\
    NRF_QDEC w' SAMPLEPER = uint32_t (find_sampleper (QD.samplePeriod s)) /\
    NRF_QDEC w' ACC = 0 /\ NRF_QDEC w' ACCDBL = 0 /\
    systemTickComponents w' =
      (if QD.usingSystemTick s
       then remove_first this (systemTickComponents w)
       else systemTickComponents w) /\
    adds_of this (trace w') = adds_of this (trace w).
Proof.
  intros He Hr. unfold QD.start. run_M. rewrite He, Hr. cbn [Z.eqb negb orb].
  unfold QD.usingSystemTick. cbn [QD.status QD.set_status].
  rewrite tick_after_set_running.
  destruct (negb (name (QD.LED s) =? NC));
    destruct (test_flag (QD.status s) QDEC_STATUS_USING_SYSTEM_TICK);
    (eexists; split; [reflexivity|]);
    cbn [NRF_QDEC systemTickComponents trace];
    rewrite ?adds_of_app; cbn [adds_of filter]; rewrite ?app_nil_r;
    repeat split; reflexivity.
Qed.

Lemma QDec_start_ok (this : Component) (s : QDec.t) (w : World) :
  NRF_QDEC w ENABLE = 0 -> QDec.running s = false ->
  exists w',
    QDec.start this s w =
      (MICROBIT_OK,
       QDec.set_status
         (uint8_t (Z.lor (QDec.status s) MICROBIT_COMPONENT_RUNNING)) s,
       w') /\
    NRF_QDEC w' ENABLE = 1 /\
    NRF_QDEC w' SAMPLEPER = uint32_t (find_sampleper (QDec.samplePeriod s)) /\
    NRF_QDEC w' ACC = 0 /\ NRF_QDEC w' ACCDBL = 0 /\
    systemTickComponents w' =
      (if QDec.useSystemTick s
       then remove_first this (systemTickComponents w)
       else systemTickComponents w) /\
    adds_of this (trace w') = adds_of this (trace w).
Proof.
  intros He Hr. unfold QDec.start. run_M. rewrite He, Hr. cbn [Z.eqb negb orb].
  destruct (negb (name (QDec.LED s) =? NC));
    destruct (QDec.useSystemTick s);
    (eexists; split; [reflexivity|]);
    cbn [NRF_QDEC systemTickComponents trace];
    rewrite ?adds_of_app; cbn [adds_of filter]; rewrite ?app_nil_r;
    repeat split; reflexivity.
Qed.

(** [start()] never writes [position] or [errors], whatever it returns. *)
Lemma QD_start_frame (this : Component) (s : QD.t) (w : World) :
  QD.position (snd (fst (QD.start this s w))) = QD.position s /\
  QD.errors (snd (fst (QD.start this s w))) = QD.errors s.
Proof.
  unfold QD.start. run_M.
  destruct (negb (NRF_QDEC w ENABLE =? 0) || QD.running s); [now split|].
  destruct (negb (name (QD.LED s) =? NC));
    match goal with
    | |- context [if ?c then _ else _] => destruct c
    end; now split.
Qed.

Lemma QDec_start_frame (this : Component) (s : QDec.t) (w : World) :
  QDec.position (snd (fst (QDec.start this s w))) = QDec.position s /\
  QDec.errors (snd (fst (QDec.start this s w))) = QDec.errors s.
Proof.
  unfold QDec.start. run_M.
  destruct (negb (NRF_QDEC w ENABLE =? 0) || QDec.running s); [now split|].
  destruct (negb (name (QDec.LED s) =? NC));
    destruct (QDec.useSystemTick s); now split.
Qed.

(** ** [stop()] *)

Lemma QD_stop_frame (this : Component) (s : QD.t) (w : World) :
  QD.position (fst (QD.stop this s w)) = QD.position s /\
  QD.errors (fst (QD.stop this s w)) = QD.errors s.
Proof.
  unfold QD.stop. run_M.
  destruct (QD.usingSystemTick s); destruct (QD.running s); now split.
Qed.

Lemma QDec_stop_frame (this : Component) (s : QDec.t) (w : World) :
  QDec.position (fst (QDec.stop this s w)) = QDec.position s /\
  QDec.errors (fst (QDec.stop this s w)) = QDec.errors s.
Proof.
  unfold QDec.stop. run_M.
  destruct (QDec.running s); cbn [QDec.useSystemTick QDec.set_status];
    destruct (QDec.useSystemTick s); now split.
Qed.

Lemma QD_stop_not_running (this : Component) (s : QD.t) (w : World) :
  QD.running (fst (QD.stop this s w)) = false.
Proof.
  unfold QD.stop. run_M.
  destruct (QD.usingSystemTick s); destruct (QD.running s) eqn:E;
    cbn [fst]; try exact E;
    unfold QD.running; cbn [QD.status QD.set_status];
    apply running_after_clear.
Qed.

Lemma QDec_stop_not_running (this : Component) (s : QDec.t) (w : World) :
  QDec.running (fst (QDec.stop this s w)) = false.
Proof.
  unfold QDec.stop. run_M.
  destruct (QDec.running s) eqn:E;
    cbn [QDec.useSystemTick QDec.set_status];
    destruct (QDec.useSystemTick s); cbn [fst]; try exact E;
    unfold QDec.running; cbn [QDec.status QDec.set_status];
    apply running_after_clear.
Qed.

(** On a running instance [stop()] raises [TASKS_STOP] and clears [ENABLE]. *)
Lemma QD_stop_running (this : Component) (s : QD.t) (w : World) :
  QD.running s = true ->
  NRF_QDEC (snd (QD.stop this s w)) ENABLE = 0 /\
  NRF_QDEC (snd (QD.stop this s w)) TASKS_STOP = 1.
Proof.
  intros Hr. unfold QD.stop. run_M. rewrite Hr.
  destruct (QD.usingSystemTick s); now split.
Qed.

Lemma QDec_stop_running (this : Component) (s : QDec.t) (w : World) :
  QDec.running s = true ->
  NRF_QDEC (snd (QDec.stop this s w)) ENABLE = 0 /\
  NRF_QDEC (snd (QDec.stop this s w)) TASKS_STOP = 1.
Proof.
  intros Hr. unfold QDec.stop. run_M. rewrite Hr.
  cbn [QDec.useSystemTick QDec.set_status].
  destruct (QDec.useSystemTick s); now split.
Qed.

(** On a stopped instance [stop()] leaves the instance and every register
    alone and accesses no register; all it may do is ask the timer once
    more to forget the instance. *)
Lemma QD_stop_stopped (this : Component) (s : QD.t) (w : World) :
  QD.running s = false ->
  QD.stop this s w =
    (s, if QD.usingSystemTick s
        then mkWorld (NRF_QDEC w) (remove_first this (systemTickComponents w))
                     (trace w ++ [TimerRemove this])
        else w).
Proof.
  intros Hr. unfold QD.stop. run_M. rewrite Hr.
  now destruct (QD.usingSystemTick s).
Qed.

Lemma QDec_stop_stopped (this : Component) (s : QDec.t) (w : World) :
  QDec.running s = false ->
  QDec.stop this s w =
    (s, if QDec.useSystemTick s
        then mkWorld (NRF_QDEC w) (remove_first this (systemTickComponents w))
                     (trace w ++ [TimerRemove this])
        else w).
Proof.
  intros Hr. unfold QDec.stop. run_M. rewrite Hr.
  now destruct (QDec.useSystemTick s).
Qed.

(** The log of [MicroBitQuadratureDecoder::stop()]: the deregistration
    comes before the two register writes. *)
Lemma QD_stop_trace (this : Component) (s : QD.t) (w : World) :
  trace (snd (QD.stop this s w)) =
    trace w
    ++ (if QD.usingSystemTick s then [TimerRemove this] else [])
    ++ (if QD.running s
        then [RegWrite TASKS_STOP 1; RegWrite ENABLE 0] else []).
Proof.
  unfold QD.stop. run_M.
  destruct (QD.usingSystemTick s); destruct (QD.running s);
    cbn [snd trace app]; rewrite <- ?app_assoc, ?app_nil_r; reflexivity.
Qed.

(** The log of [MicroBitQDec::stop()]: the deregistration comes after the
    two register writes. *)
Lemma QDec_stop_trace (this : Component) (s : QDec.t) (w : World) :
  trace (snd (QDec.stop this s w)) =
    trace w
    ++ (if QDec.running s
        then [RegWrite TASKS_STOP 1; RegWrite ENABLE 0] else [])
    ++ (if QDec.useSystemTick s then [TimerRemove this] else []).
Proof.
  unfold QDec.stop. run_M.
  destruct (QDec.running s); cbn [QDec.useSystemTick QDec.set_status];
    destruct (QDec.useSystemTick s);
    cbn [snd trace app]; rewrite <- ?app_assoc, ?app_nil_r; reflexivity.
Qed.

Lemma remove_first_absent (c : Component) (l : list Component) :
  count_occ Nat.eq_dec l c = 0%nat -> remove_first c l = l.
Proof.
  induction l as [|x l IH]; cbn [remove_first count_occ]; [reflexivity|].
  destruct (Nat.eq_dec x c) as [->|Hne]; [discriminate|].
  intros H. destruct (Nat.eqb_spec x c); [contradiction|].
  now rewrite IH.
Qed.

Lemma count_remove_first (c : Component) (l : list Component) :
  count_occ Nat.eq_dec (remove_first c l) c =
  Nat.pred (count_occ Nat.eq_dec l c).
Proof.
  induction l as [|x l IH]; cbn [remove_first count_occ]; [reflexivity|].
  destruct (Nat.eqb_spec x c) as [->|Hne].
  - destruct (Nat.eq_dec c c); [reflexivity | contradiction].
  - cbn [count_occ]. destruct (Nat.eq_dec x c); [contradiction | exact IH].
Qed.

(** A second [stop()] changes neither the instance nor any register; it
    leaves the component table alone as well when the instance was
    registered at most once. *)
Lemma QD_stop_idempotent (this : Component) (s : QD.t) (w : World) :
  let r1 := QD.stop this s w in
  let r2 := QD.stop this (fst r1) (snd r1) in
  fst r2 = fst r1 /\ NRF_QDEC (snd r2) = NRF_QDEC (snd r1) /\
  ((registrations this w <= 1)%nat ->
   systemTickComponents (snd r2) = systemTickComponents (snd r1)).
Proof.
  cbv zeta.
  rewrite (QD_stop_stopped this (fst (QD.stop this s w)))
    by apply QD_stop_not_running.
  cbn [fst snd]. split; [reflexivity|].
  unfold QD.stop, registrations. run_M.
  destruct (QD.usingSystemTick s) eqn:Et; destruct (QD.running s) eqn:Er;
    cbn [fst snd NRF_QDEC systemTickComponents];
    unfold QD.usingSystemTick in *; cbn [QD.status QD.set_status];
    rewrite ?tick_after_clear_running, ?Et;
    cbn [NRF_QDEC systemTickComponents];
    (split; [reflexivity|]); intros Hc; try reflexivity;
    apply remove_first_absent; rewrite count_remove_first; lia.
Qed.

Lemma QDec_stop_idempotent (this : Component) (s : QDec.t) (w : World) :
  let r1 := QDec.stop this s w in
  let r2 := QDec.stop this (fst r1) (snd r1) in
  fst r2 = fst r1 /\ NRF_QDEC (snd r2) = NRF_QDEC (snd r1) /\
  ((registrations this w <= 1)%nat ->
   systemTickComponents (snd r2) = systemTickComponents (snd r1)).
Proof.
  cbv zeta.
  rewrite (QDec_stop_stopped this (fst (QDec.stop this s w)))
    by apply QDec_stop_not_running.
  cbn [fst snd]. split; [reflexivity|].
  unfold QDec.stop, registrations. run_M.
  destruct (QDec.running s) eqn:Er;
    cbn [QDec.useSystemTick QDec.set_status];
    destruct (QDec.useSystemTick s) eqn:Et;
    cbn [fst snd NRF_QDEC systemTickComponents QDec.useSystemTick
         QDec.set_status];
    rewrite ?Et; cbn [NRF_QDEC systemTickComponents];
    (split; [reflexivity|]); intros Hc; try reflexivity;
    apply remove_first_absent; rewrite count_remove_first; lia.
Qed.

(** ** [enableSystemTick()] before [start()] *)

Lemma QD_enableSystemTick_stopped (this : Component) (s : QD.t) (w : World) :
  QD.running s = false ->
  snd (QD.enableSystemTick this s w) = w /\
  QD.usingSystemTick (fst (QD.enableSystemTick this s w)) = true /\
  QD.running (fst (QD.enableSystemTick this s w)) = false.
Proof.
  intros Hr. unfold QD.enableSystemTick.
  destruct (QD.usingSystemTick s) eqn:Et; cbn [negb].
  - now cbn.
  - run_M. unfold QD.running, QD.usingSystemTick in *.
    cbn [QD.status QD.set_status].
    rewrite running_after_set_tick, Hr. cbn [fst snd QD.status QD.set_status].
    rewrite running_after_set_tick, tick_after_set_tick. now rewrite Hr.
Qed.

Lemma QDec_enableSystemTick_stopped
      (this : Component) (s : QDec.t) (w : World) :
  QDec.running s = false ->
  snd (QDec.enableSystemTick this s w) = w /\
  QDec.useSystemTick (fst (QDec.enableSystemTick this s w)) = true /\
  QDec.running (fst (QDec.enableSystemTick this s w)) = false.
Proof.
  intros Hr. unfold QDec.enableSystemTick.
  destruct (QDec.useSystemTick s) eqn:Et; cbn [negb].
  - now cbn.
  - run_M. unfold QDec.running in *. cbn [QDec.status QDec.set_useSystemTick].
    rewrite Hr. now cbn.
Qed.

Lemma log_read_registers_nothing (this : Component) (r : Reg) (w : World) :
  registrations this (log (RegRead r) w) = registrations this w /\
  adds_of this (trace (log (RegRead r) w)) = adds_of this (trace w).
Proof.
  split; [reflexivity|].
  unfold log. cbn [trace]. rewrite adds_of_app. cbn [adds_of filter].
  apply app_nil_r.
Qed.

(** However [start()] ends, it has registered nothing: the table holds no
    more entries of the instance than before and the log no further
    registration. *)
Lemma QD_start_registers_nothing (this : Component) (s : QD.t) (w : World) :
  (registrations this (snd (QD.start this s w)) <= registrations this w)%nat /\
  adds_of this (trace (snd (QD.start this s w))) = adds_of this (trace w).
Proof.
  destruct (Z.eq_dec (NRF_QDEC w ENABLE) 0) as [He|He];
    [destruct (QD.running s) eqn:Hr|].
  - rewrite QD_start_busy by now right.
    cbn [snd]. destruct (log_read_registers_nothing this ENABLE w) as [-> ->].
    now split.
  - destruct (QD_start_ok this s w He Hr) as (w' & -> & _ & _ & _ & _ & Ht & Ha).
    cbn [snd]. split; [|exact Ha].
    unfold registrations. rewrite Ht.
    destruct (QD.usingSystemTick s); [apply count_remove_first_le | lia].
  - rewrite QD_start_busy by now left.
    cbn [snd]. destruct (log_read_registers_nothing this ENABLE w) as [-> ->].
    now split.
Qed.

Lemma QDec_start_registers_nothing
      (this : Component) (s : QDec.t) (w : World) :
  (registrations this (snd (QDec.start this s w)) <= registrations this w)%nat /\
  adds_of this (trace (snd (QDec.start this s w))) = adds_of this (trace w).
Proof.
  destruct (Z.eq_dec (NRF_QDEC w ENABLE) 0) as [He|He];
    [destruct (QDec.running s) eqn:Hr|].
  - rewrite QDec_start_busy by now right.
    cbn [snd]. destruct (log_read_registers_nothing this ENABLE w) as [-> ->].
    now split.
  - destruct (QDec_start_ok this s w He Hr)
      as (w' & -> & _ & _ & _ & _ & Ht & Ha).
    cbn [snd]. split; [|exact Ha].
    unfold registrations. rewrite Ht.
    destruct (QDec.useSystemTick s); [apply count_remove_first_le | lia].
  - rewrite QDec_start_busy by now left.
    cbn [snd]. destruct (log_read_registers_nothing this ENABLE w) as [-> ->].
    now split.
Qed.

(** ** [poll()] *)

(** One poll, in terms of what the accumulators held. *)
Lemma QD_poll_eq (s : QD.t) (w : World) :
  fst (QD.poll s w) =
    QD.set_errors
      (uint16_t (min UINT16_MAX
                     (int32_t (uint32_t (QD.errors s + NRF_QDEC w ACCDBL)))))
      (QD.set_position
         (int64_t (QD.position s + int32_t (NRF_QDEC w ACC))) s) /\
  NRF_QDEC (snd (QD.poll s w)) ACC = 0 /\
  NRF_QDEC (snd (QD.poll s w)) ACCDBL = 0 /\
  NRF_QDEC (snd (QD.poll s w)) ACCREAD = NRF_QDEC w ACC /\
  NRF_QDEC (snd (QD.poll s w)) ACCDBLREAD = NRF_QDEC w ACCDBL.
Proof. unfold QD.poll. run_M. now repeat split. Qed.

Lemma QDec_poll_eq (s : QDec.t) (w : World) :
  fst (QDec.poll s w) =
    QDec.set_errors
      (uint32_t (QDec.errors s + NRF_QDEC w ACCDBL))
      (QDec.set_position
         (int64_t (QDec.position s + int32_t (NRF_QDEC w ACC))) s) /\
  NRF_QDEC (snd (QDec.poll s w)) ACC = 0 /\
  NRF_QDEC (snd (QDec.poll s w)) ACCDBL = 0 /\
  NRF_QDEC (snd (QDec.poll s w)) ACCREAD = NRF_QDEC w ACC /\
  NRF_QDEC (snd (QDec.poll s w)) ACCDBLREAD = NRF_QDEC w ACCDBL.
Proof. unfold QDec.poll. run_M. now repeat split. Qed.

Lemma int64_t_range (x : Z) : in_int64 (int64_t x).
Proof.
  unfold in_int64, int64_t.
  pose proof (Z.mod_pos_bound (x + 2 ^ 63) (2 ^ 64) ltac:(lia)). lia.
Qed.

Lemma QD_polls_cons (d e : Z) (rest : list (Z * Z)) (s : QD.t) (w : World) :
  QD.polls ((d, e) :: rest) s w =
  QD.polls rest (fst (QD.poll s (hw_accumulate d e w)))
                (snd (QD.poll s (hw_accumulate d e w))).
Proof.
  cbn [QD.polls]. now destruct (QD.poll s (hw_accumulate d e w)).
Qed.

Lemma QDec_polls_cons
      (d e : Z) (rest : list (Z * Z)) (s : QDec.t) (w : World) :
  QDec.polls ((d, e) :: rest) s w =
  QDec.polls rest (fst (QDec.poll s (hw_accumulate d e w)))
                  (snd (QDec.poll s (hw_accumulate d e w))).
Proof.
  cbn [QDec.polls]. now destruct (QDec.poll s (hw_accumulate d e w)).
Qed.

(** The position after the polls is the 64-bit reduction of the initial
    position plus the deltas. *)
Lemma QD_polls_position_wrap (drains : list (Z * Z)) :
  Forall (fun de => in_int32 (fst de)) drains ->
  forall (s : QD.t) (w : World),
    in_int64 (QD.position s) ->
    QD.position (fst (QD.polls drains s w)) =
    int64_t (QD.position s + Zsum (map fst drains)).
Proof.
  induction 1 as [|[d e] rest Hd _ IH]; intros s w Hs.
  - cbn. rewrite Z.add_0_r. symmetry. now apply int64_t_small.
  - rewrite QD_polls_cons.
    destruct (QD_poll_eq s (hw_accumulate d e w)) as (Hp & _).
    rewrite IH; rewrite Hp; cbn [QD.position QD.set_position QD.set_errors];
      [|apply int64_t_range].
    cbn [hw_accumulate NRF_QDEC upd Reg_eqb fst map Zsum fold_right].
    rewrite (int32_t_uint32_t d Hd), int64_t_add_l. f_equal.
    fold (Zsum (map fst rest)). ring.
Qed.

Lemma QDec_polls_position_wrap (drains : list (Z * Z)) :
  Forall (fun de => in_int32 (fst de)) drains ->
  forall (s : QDec.t) (w : World),
    in_int64 (QDec.position s) ->
    QDec.position (fst (QDec.polls drains s w)) =
    int64_t (QDec.position s + Zsum (map fst drains)).
Proof.
  induction 1 as [|[d e] rest Hd _ IH]; intros s w Hs.
  - cbn. rewrite Z.add_0_r. symmetry. now apply int64_t_small.
  - rewrite QDec_polls_cons.
    destruct (QDec_poll_eq s (hw_accumulate d e w)) as (Hp & _).
    rewrite IH; rewrite Hp;
      cbn [QDec.position QDec.set_position QDec.set_errors];
      [|apply int64_t_range].
    cbn [hw_accumulate NRF_QDEC upd Reg_eqb fst map Zsum fold_right].
    rewrite (int32_t_uint32_t d Hd), int64_t_add_l. f_equal.
    fold (Zsum (map fst rest)). ring.
Qed.

Lemma QD_saturating_step (errors e : Z) :
  0 <= errors <= UINT16_MAX -> in_accdbl e ->
  uint16_t (min UINT16_MAX (int32_t (uint32_t (errors + uint32_t e)))) =
  Z.min UINT16_MAX (errors + e).
Proof.
  unfold in_accdbl, UINT16_MAX. intros He Hd.
  change (2 ^ 31) with 2147483648 in Hd.
  rewrite (uint32_t_small e) by (change (2 ^ 32) with 4294967296; lia).
  rewrite (uint32_t_small (errors + e))
    by (change (2 ^ 32) with 4294967296; lia).
  unfold int32_t. change (2 ^ 31) with 2147483648.
  change (2 ^ 32) with 4294967296.
  rewrite (Z.mod_small (errors + e + 2147483648)) by lia.
  unfold min, uint16_t. change (2 ^ 16) with 65536.
  destruct (Z.ltb_spec 65535 (errors + e + 2147483648 - 2147483648)).
  - rewrite Z.mod_small by lia. lia.
  - rewrite Z.mod_small by lia. lia.
Qed.

(** [MicroBitQuadratureDecoder]: the error count after the polls is the
    initial count plus the drained counts, capped at [UINT16_MAX]. *)
Lemma QD_polls_errors_saturate (drains : list (Z * Z)) :
  Forall (fun de => in_accdbl (snd de)) drains ->
  forall (s : QD.t) (w : World),
    0 <= QD.errors s <= UINT16_MAX ->
    QD.errors (fst (QD.polls drains s w)) =
    Z.min UINT16_MAX (QD.errors s + Zsum (map snd drains)) /\
    QD.errors s <= QD.errors (fst (QD.polls drains s w)).
Proof.
  induction 1 as [|[d e] rest Hd H IH]; intros s w Hs.
  - cbn. unfold UINT16_MAX in *. lia.
  - rewrite QD_polls_cons.
    destruct (QD_poll_eq s (hw_accumulate d e w)) as (Hp & _).
    set (s1 := fst (QD.poll s (hw_accumulate d e w))) in *.
    assert (E1 : QD.errors s1 = Z.min UINT16_MAX (QD.errors s + e)).
    { rewrite Hp. cbn [QD.errors QD.set_errors QD.set_position].
      cbn [hw_accumulate NRF_QDEC upd Reg_eqb].
      now apply QD_saturating_step. }
    cbn [snd] in Hd. unfold in_accdbl, UINT16_MAX in *.
    destruct (IH s1 (snd (QD.poll s (hw_accumulate d e w)))) as [IH1 IH2];
      [lia|].
    rewrite IH1, E1. cbn [map snd Zsum fold_right].
    fold (Zsum (map snd rest)).
    assert (0 <= Zsum (map snd rest)).
    { clear -H. induction H as [|[d' e'] l Hx _ IHl]; cbn; [lia|].
      cbn in Hx. unfold in_accdbl in Hx. fold (Zsum (map snd l)). lia. }
    split; lia.
Qed.

(** [MicroBitQDec]: the error count after a poll is the 32-bit reduction
    of the sum. *)
Lemma QDec_poll_errors_wrap (d e : Z) (s : QDec.t) (w : World) :
  QDec.errors (fst (QDec.poll s (hw_accumulate d e w))) =
  uint32_t (QDec.errors s + uint32_t e).
Proof.
  destruct (QDec_poll_eq s (hw_accumulate d e w)) as (-> & _). reflexivity.
Qed.

(** ** Construction *)

Lemma test_flag_land_lnot (x n : Z) :
  0 <= n -> test_flag (Z.land x (Z.lnot (2 ^ n))) (2 ^ n) = false.
Proof.
  intros Hn. rewrite test_flag_pow2, Z.land_spec, Z.lnot_spec by assumption.
  rewrite Z.pow2_bits_true by assumption. apply andb_false_r.
Qed.

(** Both constructors of [MicroBitQuadratureDecoder] give an instance that
    is not running, at position 0, with no errors, and leave the world as
    it was. *)
Lemma QD_new_fresh (pA pB pL : MicroBitPin) (delay flags : Z) (w : World) :
  let r := QD.new pA pB pL delay flags w in
  QD.running (fst r) = false /\ QD.getPosition (fst r) = 0 /\
  QD.getErrors (fst r) = 0 /\ QD.getSamplePeriod (fst r) = 128 /\ snd r = w.
Proof.
  cbv zeta. unfold QD.new, ret, QD.running. cbn [fst snd QD.status].
  rewrite running_after_clear. now repeat split.
Qed.

Lemma QD_new_noLED_fresh (pA pB : MicroBitPin) (flags : Z) (w : World) :
  let r := QD.new_noLED pA pB flags w in
  QD.running (fst r) = false /\ QD.getPosition (fst r) = 0 /\
  QD.getErrors (fst r) = 0 /\ QD.getSamplePeriod (fst r) = 128 /\ snd r = w.
Proof.
  cbv zeta. unfold QD.new_noLED, ret, QD.running. cbn [fst snd QD.status].
  split; [|now repeat split].
  etransitivity;
    [apply (test_flag_clear
              (Z.land (uint8_t flags) (Z.lnot MICROBIT_COMPONENT_RUNNING))
              3 0); lia|].
  rewrite andb_true_r. apply (test_flag_land_lnot (uint8_t flags) 0). lia.
Qed.

(** The constructor of [MicroBitQDec] gives an instance that is not
    running, at position 0, and leaves the world as it was; its error
    count is what the storage held. *)
Lemma QDec_new_fresh (g : Z) (pA pB pL : MicroBitPin)
      (cfg : option QDecExtraConfig) (w : World) :
  let r := QDec.new g pA pB pL cfg w in
  QDec.running (fst r) = false /\ QDec.getPosition (fst r) = 0 /\
  QDec.getErrors (fst r) = uint32_t g /\ QDec.useSystemTick (fst r) = false /\
  snd r = w.
Proof. cbv zeta. unfold QDec.new, ret. now repeat split. Qed.

(** ** Restarting *)

Lemma QD_stop_then_start_ok (this : Component) (s : QD.t) (w : World) :
  QD.running s = true ->
  let r1 := QD.stop this s w in
  let r2 := QD.start this (fst r1) (snd r1) in
  fst (fst r2) = MICROBIT_OK /\ QD.running (snd (fst r2)) = true.
Proof.
  intros Hr. cbv zeta.
  destruct (QD_stop_running this s w Hr) as [He _].
  destruct (QD_start_ok this _ _ He (QD_stop_not_running this s w))
    as (w' & -> & _).
  cbn [fst snd]. split; [reflexivity|].
  unfold QD.running. cbn [QD.status QD.set_status]. apply running_after_set.
Qed.

Lemma QDec_stop_then_start_ok (this : Component) (s : QDec.t) (w : World) :
  QDec.running s = true ->
  let r1 := QDec.stop this s w in
  let r2 := QDec.start this (fst r1) (snd r1) in
  fst (fst r2) = MICROBIT_OK /\ QDec.running (snd (fst r2)) = true.
Proof.
  intros Hr. cbv zeta.
  destruct (QDec_stop_running this s w Hr) as [He _].
  destruct (QDec_start_ok this _ _ He (QDec_stop_not_running this s w))
    as (w' & -> & _).
  cbn [fst snd]. split; [reflexivity|].
  unfold QDec.running. cbn [QDec.status QDec.set_status].
  apply running_after_set.
Qed.

Lemma QD_cycles_frame (n : nat) (this : Component) :
  forall (s : QD.t) (w : World),
    QD.position (fst (QD.cycles n this s w)) = QD.position s /\
    QD.errors (fst (QD.cycles n this s w)) = QD.errors s.
Proof.
  induction n as [|n IH]; intros s w; [now split|].
  cbn [QD.cycles]. unfold bind.
  destruct (QD.stop this s w) as [s1 w1] eqn:E1.
  destruct (QD.start this s1 w1) as [r w2] eqn:E2.
  destruct (IH (snd r) w2) as [-> ->].
  pose proof (QD_start_frame this s1 w1) as [Hp He]. rewrite E2 in Hp, He.
  pose proof (QD_stop_frame this s w) as [Hp' He']. rewrite E1 in Hp', He'.
  cbn [fst snd] in *. split; congruence.
Qed.

Lemma QDec_cycles_frame (n : nat) (this : Component) :
  forall (s : QDec.t) (w : World),
    QDec.position (fst (QDec.cycles n this s w)) = QDec.position s /\
    QDec.errors (fst (QDec.cycles n this s w)) = QDec.errors s.
Proof.
  induction n as [|n IH]; intros s w; [now split|].
  cbn [QDec.cycles]. unfold bind.
  destruct (QDec.stop this s w) as [s1 w1] eqn:E1.
  destruct (QDec.start this s1 w1) as [r w2] eqn:E2.
  destruct (IH (snd r) w2) as [-> ->].
  pose proof (QDec_start_frame this s1 w1) as [Hp He]. rewrite E2 in Hp, He.
  pose proof (QDec_stop_frame this s w) as [Hp' He']. rewrite E1 in Hp', He'.
  cbn [fst snd] in *. split; congruence.
Qed.

(** A [start()] that returns [MICROBIT_OK] has emptied the accumulators. *)
Lemma QD_start_clears (this : Component) (s : QD.t) (w : World) :
  fst (fst (QD.start this s w)) = MICROBIT_OK ->
  NRF_QDEC (snd (QD.start this s w)) ACC = 0 /\
  NRF_QDEC (snd (QD.start this s w)) ACCDBL = 0.
Proof.
  destruct (Z.eq_dec (NRF_QDEC w ENABLE) 0) as [He|He];
    [destruct (QD.running s) eqn:Hr|].
  - rewrite QD_start_busy by now right. discriminate.
  - destruct (QD_start_ok this s w He Hr) as (w' & -> & _ & _ & Ha & Hd & _).
    now split.
  - rewrite QD_start_busy by now left. discriminate.
Qed.

Lemma QDec_start_clears (this : Component) (s : QDec.t) (w : World) :
  fst (fst (QDec.start this s w)) = MICROBIT_OK ->
  NRF_QDEC (snd (QDec.start this s w)) ACC = 0 /\
  NRF_QDEC (snd (QDec.start this s w)) ACCDBL = 0.
Proof.
  destruct (Z.eq_dec (NRF_QDEC w ENABLE) 0) as [He|He];
    [destruct (QDec.running s) eqn:Hr|].
  - rewrite QDec_start_busy by now right. discriminate.
  - destruct (QDec_start_ok this s w He Hr) as (w' & -> & _ & _ & Ha & Hd & _).
    now split.
  - rewrite QDec_start_busy by now left. discriminate.
Qed.

(** With a period at or above the floor, a successful [start()] programs
    the largest level that fits. *)
Lemma QD_start_sampleper (this : Component) (s : QD.t) (w : World) :
  NRF_QDEC w ENABLE = 0 -> QD.running s = false -> 128 <= QD.samplePeriod s ->
  fst (fst (QD.start this s w)) = MICROBIT_OK /\
  largest_level (QD.samplePeriod s) (NRF_QDEC (snd (QD.start this s w)) SAMPLEPER).
Proof.
  intros He Hr Hp.
  destruct (QD_start_ok this s w He Hr) as (w' & -> & _ & Hs & _).
  cbn [fst snd]. split; [reflexivity|]. rewrite Hs.
  pose proof (find_sampleper_largest _ Hp) as H.
  rewrite uint32_t_small; [exact H|].
  destruct H as (H & _). change (2 ^ 32) with 4294967296. lia.
Qed.

Lemma QDec_start_sampleper (this : Component) (s : QDec.t) (w : World) :
  NRF_QDEC w ENABLE = 0 -> QDec.running s = false ->
  128 <= QDec.samplePeriod s ->
  fst (fst (QDec.start this s w)) = MICROBIT_OK /\
  largest_level (QDec.samplePeriod s)
                (NRF_QDEC (snd (QDec.start this s w)) SAMPLEPER).
Proof.
  intros He Hr Hp.
  destruct (QDec_start_ok this s w He Hr) as (w' & -> & _ & Hs & _).
  cbn [fst snd]. split; [reflexivity|]. rewrite Hs.
  pose proof (find_sampleper_largest _ Hp) as H.
  rewrite uint32_t_small; [exact H|].
  destruct H as (H & _). change (2 ^ 32) with 4294967296. lia.
Qed.

(** Below the floor a successful [start()] writes the word of [-1]. *)
Lemma QDec_start_sampleper_below (this : Component) (s : QDec.t) (w : World) :
  NRF_QDEC w ENABLE = 0 -> QDec.running s = false ->
  QDec.samplePeriod s < 128 ->
  fst (fst (QDec.start this s w)) = MICROBIT_OK /\
  NRF_QDEC (snd (QDec.start this s w)) SAMPLEPER = 4294967295.
Proof.
  intros He Hr Hp.
  destruct (QDec_start_ok this s w He Hr) as (w' & -> & _ & Hs & _).
  cbn [fst snd]. split; [reflexivity|].
  now rewrite Hs, find_sampleper_below_floor.
Qed.

(** Periodic polling requested on a stopped instance, then [start()]: the
    request is recorded, and the start registers nothing. *)
Lemma QD_enable_then_start (this : Component) (s : QD.t) (w : World) :
  QD.running s = false ->
  let r1 := QD.enableSystemTick this s w in
  let r2 := QD.start this (fst r1) (snd r1) in
  QD.usingSystemTick (snd (fst r2)) = true /\
  (registrations this (snd r2) <= registrations this w)%nat /\
  adds_of this (trace (snd r2)) = adds_of this (trace w).
Proof.
  intros Hr. cbv zeta.
  destruct (QD_enableSystemTick_stopped this s w Hr) as (Hw & Ht & _).
  rewrite Hw. revert Ht.
  generalize (fst (QD.enableSystemTick this s w)) as s1.
  intros s1 Ht. split; [|apply QD_start_registers_nothing].
  unfold QD.start. run_M.
  destruct (negb (NRF_QDEC w ENABLE =? 0) || QD.running s1); [exact Ht|].
  destruct (negb (name (QD.LED s1) =? NC));
    unfold QD.usingSystemTick in *; cbn [QD.status QD.set_status];
    rewrite tick_after_set_running, Ht; cbn [fst snd QD.status QD.set_status];
    now rewrite tick_after_set_running.
Qed.

Lemma QDec_enable_then_start (this : Component) (s : QDec.t) (w : World) :
  QDec.running s = false ->
  let r1 := QDec.enableSystemTick this s w in
  let r2 := QDec.start this (fst r1) (snd r1) in
  QDec.useSystemTick (snd (fst r2)) = true /\
  (registrations this (snd r2) <= registrations this w)%nat /\
  adds_of this (trace (snd r2)) = adds_of this (trace w).
Proof.
  intros Hr. cbv zeta.
  destruct (QDec_enableSystemTick_stopped this s w Hr) as (Hw & Ht & _).
  rewrite Hw. revert Ht.
  generalize (fst (QDec.enableSystemTick this s w)) as s1.
  intros s1 Ht. split; [|apply QDec_start_registers_nothing].
  unfold QDec.start. run_M.
  destruct (negb (NRF_QDEC w ENABLE =? 0) || QDec.running s1); [exact Ht|].
  destruct (negb (name (QDec.LED s1) =? NC));
    rewrite Ht; cbn [fst snd QDec.useSystemTick QDec.set_status];
    exact Ht.
Qed.

(** * The properties of the specification, C1 to C10 *)

(** C1 : The level [start()] programs for a configured period below 128.
    A [MicroBitQDec] configured with a sample period of 100 us starts with
    [MICROBIT_OK]; no level passes the test of the search loop, which is
    left with [sampleper = -1], and [SAMPLEPER] receives that value, the
    word 4294967295, where level 0 was to be selected.  (From 128 up the
    level is the largest that fits: [QD_start_sampleper],
    [QDec_start_sampleper].) *)
Theorem start_sampleper_below_floor :
  let s := fst (QDec.new 0 pinA pinB pinNC (Some cfg_100us) world0) in
  let r := QDec.start this0 s world0 in
  QDec.samplePeriod s = 100 /\
  fst (fst r) = MICROBIT_OK /\
  find_sampleper (QDec.samplePeriod s) = -1 /\
  NRF_QDEC (snd r) SAMPLEPER = 4294967295 /\
  NRF_QDEC (snd r) SAMPLEPER <> 0.
Proof.
  cbv zeta.
  destruct (QDec_start_sampleper_below this0
              (fst (QDec.new 0 pinA pinB pinNC (Some cfg_100us) world0))
              world0) as [Hok Hreg]; try reflexivity.
  repeat split; try assumption.
  rewrite Hreg. discriminate.
Qed.

(** C2 : [enableSystemTick()] on a fresh instance followed by [start()] on
    the free peripheral.  In both classes [start()] returns [MICROBIT_OK]
    and the instance is running with periodic polling requested, but the
    only call [start()] makes to the system timer is
    [system_timer_remove_component]: the component table holds no entry
    of the instance and the log no registration, where exactly one
    registration was to result. *)
Theorem enable_then_start_never_registers :
  (let r1 := QD.enableSystemTick this0 qd_fresh world0 in
   let r2 := QD.start this0 (fst r1) (snd r1) in
   fst (fst r2) = MICROBIT_OK /\
   QD.running (snd (fst r2)) = true /\
   QD.usingSystemTick (snd (fst r2)) = true /\
   registrations this0 (snd r2) = 0%nat /\
   adds_of this0 (trace (snd r2)) = [] /\
   last (trace (snd r2)) (RegRead ENABLE) = TimerRemove this0) /\
  (let r1 := QDec.enableSystemTick this0 qdec_fresh world0 in
   let r2 := QDec.start this0 (fst r1) (snd r1) in
   fst (fst r2) = MICROBIT_OK /\
   QDec.running (snd (fst r2)) = true /\
   QDec.useSystemTick (snd (fst r2)) = true /\
   registrations this0 (snd r2) = 0%nat /\
   adds_of this0 (trace (snd r2)) = [] /\
   In (TimerRemove this0) (trace (snd r2))).
Proof.
  split; cbv zeta; vm_compute; repeat split.
  do 16 right. now left.
Qed.

(** C3 : The error count of [MicroBitQDec] across a poll at the top of its
    range.  The counter is a [uint32_t] to which [poll()] adds with [+=]:
    from 4294967295, a poll that drains one double transition leaves the
    count at 0, below what it was, where it was to stay at the maximum.
    ([MicroBitQuadratureDecoder::poll()] caps the sum with [min]:
    [QD_polls_errors_saturate].) *)
Theorem QDec_poll_errors_wrap_around :
  let s' := fst (QDec.polls [(0, 1)] qdec_full (snd qdec_started)) in
  QDec.running qdec_full = true /\
  QDec.getErrors qdec_full = 4294967295 /\
  QDec.getErrors s' = 0 /\
  QDec.getErrors s' < QDec.getErrors qdec_full.
Proof.
  cbv zeta. rewrite QDec_polls_cons. cbn [QDec.polls ret fst].
  unfold QDec.getErrors. rewrite QDec_poll_errors_wrap.
  now vm_compute.
Qed.

(** C4 : [poll()] accumulates the position.  Each poll triggers
    [TASKS_READCLRACC], which empties the hardware accumulator into
    [ACCREAD], and adds the signed value of that word to [position]; for
    deltas that are 32-bit signed values, drained one per poll, the
    position after the polls is the initial position plus their sum,
    provided that sum is a 64-bit signed value.  In both classes. *)
Theorem polls_position_sum (drains : list (Z * Z)) (w : World) :
  Forall (fun de => in_int32 (fst de)) drains ->
  (forall s : QD.t,
      in_int64 (QD.position s) ->
      in_int64 (QD.position s + Zsum (map fst drains)) ->
      QD.getPosition (fst (QD.polls drains s w)) =
      QD.position s + Zsum (map fst drains)) /\
  (forall s : QDec.t,
      in_int64 (QDec.position s) ->
      in_int64 (QDec.position s + Zsum (map fst drains)) ->
      QDec.getPosition (fst (QDec.polls drains s w)) =
      QDec.position s + Zsum (map fst drains)) /\
  (forall s : QD.t,
      QD.getPosition (fst (QD.poll s w)) =
        int64_t (QD.position s + int32_t (NRF_QDEC w ACC)) /\
      NRF_QDEC (snd (QD.poll s w)) ACCREAD = NRF_QDEC w ACC /\
      NRF_QDEC (snd (QD.poll s w)) ACC = 0) /\
  (forall s : QDec.t,
      QDec.getPosition (fst (QDec.poll s w)) =
        int64_t (QDec.position s + int32_t (NRF_QDEC w ACC)) /\
      NRF_QDEC (snd (QDec.poll s w)) ACCREAD = NRF_QDEC w ACC /\
      NRF_QDEC (snd (QDec.poll s w)) ACC = 0).
Proof.
  intros Hd. split; [|split; [|split]]; intros s.
  - intros Hs Hsum. unfold QD.getPosition.
    rewrite QD_polls_position_wrap by assumption.
    now apply int64_t_small.
  - intros Hs Hsum. unfold QDec.getPosition.
    rewrite QDec_polls_position_wrap by assumption.
    now apply int64_t_small.
  - destruct (QD_poll_eq s w) as (E & Hacc & _ & Hread & _).
    rewrite E. now repeat split.
  - destruct (QDec_poll_eq s w) as (E & Hacc & _ & Hread & _).
    rewrite E. now repeat split.
Qed.

Lemma polls_position_sum_witness :
  QD.getPosition (fst (QD.polls [(3, 1); (-5, 2); (10, 0)] qd_moved world0))
    = 50 /\
  QDec.getPosition
    (fst (QDec.polls [(3, 1); (-5, 2); (10, 0)] qdec_moved world0)) = 50.
Proof.
  assert (Hd : Forall (fun de => in_int32 (fst de))
                      [(3, 1); (-5, 2); (10, 0)]).
  { repeat apply Forall_cons; try apply Forall_nil;
      unfold in_int32; cbn [fst]; lia. }
  destruct (polls_position_sum [(3, 1); (-5, 2); (10, 0)] world0 Hd)
    as (Ha & Hb & _).
  split.
  - rewrite Ha; [reflexivity | |]; unfold in_int64; cbn; lia.
  - rewrite Hb; [reflexivity | |]; unfold in_int64; cbn; lia.
Defined.

(** C5 : [start()] on a claimed peripheral.  Whenever [ENABLE] reads
    non-zero or the instance is already running, [start()] returns
    [MICROBIT_BUSY]; the instance (position, error count and running flag
    with it) and every register are as before, the read of [ENABLE] being
    the only access.  In both classes. *)
Theorem start_busy_leaves_state (this : Component) (w : World) :
  (forall s : QD.t,
      NRF_QDEC w ENABLE <> 0 \/ QD.running s = true ->
      QD.start this s w = (MICROBIT_BUSY, s, log (RegRead ENABLE) w)) /\
  (forall s : QDec.t,
      NRF_QDEC w ENABLE <> 0 \/ QDec.running s = true ->
      QDec.start this s w = (MICROBIT_BUSY, s, log (RegRead ENABLE) w)).
Proof.
  split; intros s H.
  - now apply QD_start_busy.
  - now apply QDec_start_busy.
Qed.

Lemma start_busy_leaves_state_witness :
  QD.start this0 qd_moved (snd qdec_started) =
    (MICROBIT_BUSY, qd_moved, log (RegRead ENABLE) (snd qdec_started)) /\
  QDec.start this0 (snd (fst qdec_started)) (snd qdec_started) =
    (MICROBIT_BUSY, snd (fst qdec_started),
     log (RegRead ENABLE) (snd qdec_started)).
Proof.
  split.
  - apply (proj1 (start_busy_leaves_state this0 (snd qdec_started))).
    left. cbn. discriminate.
  - apply (proj2 (start_busy_leaves_state this0 (snd qdec_started))).
    right. reflexivity.
Defined.

(** C6 : [setSamplePeriodUs(p)].  With [p < 128] it returns
    [MICROBIT_INVALID_PARAMETER] and the instance, its sample period with
    it, is as before; with [p >= 128] it returns [MICROBIT_OK] and
    [getSamplePeriod()] then returns [p].  No register is accessed. *)
Theorem setSamplePeriodUs_spec (p : Z) (s : QD.t) (w : World) :
  (p < 128 ->
   QD.setSamplePeriodUs p s w = (MICROBIT_INVALID_PARAMETER, s, w)) /\
  (128 <= p ->
   fst (fst (QD.setSamplePeriodUs p s w)) = MICROBIT_OK /\
   QD.getSamplePeriod (snd (fst (QD.setSamplePeriodUs p s w))) = p /\
   snd (QD.setSamplePeriodUs p s w) = w).
Proof.
  unfold QD.setSamplePeriodUs, ret. split; intros Hp.
  - destruct (Z.ltb_spec p 128); [reflexivity | lia].
  - destruct (Z.ltb_spec p 128); [lia | now repeat split].
Qed.

Lemma setSamplePeriodUs_spec_witness :
  QD.setSamplePeriodUs 100 qd_fresh world0 =
    (MICROBIT_INVALID_PARAMETER, qd_fresh, world0) /\
  QD.getSamplePeriod (snd (fst (QD.setSamplePeriodUs 500 qd_fresh world0)))
    = 500.
Proof.
  split.
  - apply (proj1 (setSamplePeriodUs_spec 100 qd_fresh world0)). lia.
  - apply (proj2 (setSamplePeriodUs_spec 500 qd_fresh world0)). lia.
Defined.

(** C7 : The error count of a freshly constructed [MicroBitQDec].  The
    constructor accesses no register and leaves the instance not running
    at position 0 ([QDec_new_fresh]), but it never assigns [errors], which
    has no initialiser either: [getErrors()] returns whatever the storage
    of the object held, 3735928559 for storage holding that word, where 0
    was to be returned.  ([MicroBitQuadratureDecoder] initialises the
    member: [QD_new_fresh], [QD_new_noLED_fresh].) *)
Theorem QDec_new_errors_uninitialised :
  (forall (g : Z) (pA pB pL : MicroBitPin) (cfg : option QDecExtraConfig)
          (w : World),
      QDec.getErrors (fst (QDec.new g pA pB pL cfg w)) = uint32_t g) /\
  QDec.getErrors (fst (QDec.new 3735928559 pinA pinB pinNC None world0))
    = 3735928559 /\
  QDec.getErrors (fst (QDec.new 3735928559 pinA pinB pinNC None world0))
    <> 0.
Proof.
  split; [intros; apply QDec_new_fresh|].
  split; [reflexivity | discriminate].
Qed.

(** C8 : The order of [MicroBitQDec::stop()].  On a running instance that
    is registered with the system timer, [stop()] first raises
    [TASKS_STOP] and clears [ENABLE], and only then deregisters the
    instance, where the deregistration was to come first.  ([stop()] of
    [MicroBitQuadratureDecoder] deregisters first: [QD_stop_trace]; both
    leave the instance not running and are idempotent:
    [QD_stop_not_running], [QD_stop_idempotent] and their [QDec]
    counterparts.) *)
Theorem QDec_stop_deregisters_last :
  let r1 := QDec.enableSystemTick this0 (snd (fst qdec_started))
                                  (snd qdec_started) in
  let r2 := QDec.stop this0 (fst r1) (snd r1) in
  QDec.running (fst r1) = true /\
  QDec.useSystemTick (fst r1) = true /\
  registrations this0 (snd r1) = 1%nat /\
  trace (snd r2) =
    trace (snd r1)
    ++ [RegWrite TASKS_STOP 1; RegWrite ENABLE 0; TimerRemove this0] /\
  QDec.running (fst r2) = false /\
  registrations this0 (snd r2) = 0%nat.
Proof.
  cbv zeta. rewrite QDec_stop_trace, QDec_stop_not_running.
  now vm_compute.
Qed.

(** C9 : [resetPosition(v)].  For every value and every instance, running
    or not, whatever the accumulators hold: [getPosition()] is [v]
    afterwards, [getErrors()] and [status] are as before, and the world is
    untouched, no register being read or written.  In both classes. *)
Theorem resetPosition_spec (v : Z) (w : World) :
  (forall s : QD.t,
      let r := QD.resetPosition v s w in
      QD.getPosition (fst r) = v /\ QD.getErrors (fst r) = QD.getErrors s /\
      QD.status (fst r) = QD.status s /\ snd r = w) /\
  (forall s : QDec.t,
      let r := QDec.resetPosition v s w in
      QDec.getPosition (fst r) = v /\
      QDec.getErrors (fst r) = QDec.getErrors s /\
      QDec.status (fst r) = QDec.status s /\ snd r = w).
Proof. split; intros s; cbv zeta; now repeat split. Qed.

(** C10 : [start()] and the software counters.  Whatever it returns,
    [start()] leaves [position] and [errors] as they were; when it returns
    [MICROBIT_OK] the two hardware accumulators are empty; and after any
    number of [stop()]/[start()] cycles [getPosition()] and [getErrors()]
    still return what they returned before the first.  In both classes. *)
Theorem start_keeps_position_and_errors (this : Component) :
  (forall (s : QD.t) (w : World),
      let r := QD.start this s w in
      QD.getPosition (snd (fst r)) = QD.getPosition s /\
      QD.getErrors (snd (fst r)) = QD.getErrors s /\
      (fst (fst r) = MICROBIT_OK ->
       NRF_QDEC (snd r) ACC = 0 /\ NRF_QDEC (snd r) ACCDBL = 0)) /\
  (forall (n : nat) (s : QD.t) (w : World),
      QD.getPosition (fst (QD.cycles n this s w)) = QD.getPosition s /\
      QD.getErrors (fst (QD.cycles n this s w)) = QD.getErrors s) /\
  (forall (s : QDec.t) (w : World),
      let r := QDec.start this s w in
      QDec.getPosition (snd (fst r)) = QDec.getPosition s /\
      QDec.getErrors (snd (fst r)) = QDec.getErrors s /\
      (fst (fst r) = MICROBIT_OK ->
       NRF_QDEC (snd r) ACC = 0 /\ NRF_QDEC (snd r) ACCDBL = 0)) /\
  (forall (n : nat) (s : QDec.t) (w : World),
      QDec.getPosition (fst (QDec.cycles n this s w)) = QDec.getPosition s /\
      QDec.getErrors (fst (QDec.cycles n this s w)) = QDec.getErrors s).
Proof.
  split; [|split; [|split]].
  - intros s w. cbv zeta. destruct (QD_start_frame this s w) as [Hp He].
    repeat split; try assumption; now apply QD_start_clears.
  - intros n s w. apply QD_cycles_frame.
  - intros s w. cbv zeta. destruct (QDec_start_frame this s w) as [Hp He].
    repeat split; try assumption; now apply QDec_start_clears.
  - intros n s w. apply QDec_cycles_frame.
Qed.

Lemma start_keeps_position_and_errors_witness :
  (fst (fst (QD.start this0 qd_moved world_dirty)) = MICROBIT_OK /\
   NRF_QDEC world_dirty ACC = 9 /\
   NRF_QDEC (snd (QD.start this0 qd_moved world_dirty)) ACC = 0 /\
   QD.getPosition (snd (fst (QD.start this0 qd_moved world_dirty))) = 42 /\
   QD.getErrors (snd (fst (QD.start this0 qd_moved world_dirty))) = 7) /\
  (fst (fst (QDec.start this0 qdec_moved world_dirty)) = MICROBIT_OK /\
   NRF_QDEC (snd (QDec.start this0 qdec_moved world_dirty)) ACC = 0 /\
   QDec.getPosition (snd (fst (QDec.start this0 qdec_moved world_dirty)))
     = 42 /\
   QDec.getErrors (snd (fst (QDec.start this0 qdec_moved world_dirty))) = 7).
Proof.
  destruct (start_keeps_position_and_errors this0) as (Ha & _ & Hb & _).
  destruct (Ha qd_moved world_dirty) as (Hp & He & Hacc).
  destruct (Hb qdec_moved world_dirty) as (Hp' & He' & Hacc').
  split.
  - split; [reflexivity|]. split; [reflexivity|].
    split; [apply Hacc; reflexivity|]. split; [exact Hp | exact He].
  - split; [reflexivity|].
    split; [apply Hacc'; reflexivity|]. split; [exact Hp' | exact He'].
Defined.

(** * Several instances: what each call does to ownership *)

Lemma tick_after_clear_tick (st : Z) :
  test_flag (uint8_t (Z.land st (Z.lnot QDEC_STATUS_USING_SYSTEM_TICK)))
            QDEC_STATUS_USING_SYSTEM_TICK = false.
Proof.
  etransitivity; [apply (test_flag_clear st 1 1); lia | apply andb_false_r].
Qed.

Lemma running_after_clear_tick (st : Z) :
  test_flag (uint8_t (Z.land st (Z.lnot QDEC_STATUS_USING_SYSTEM_TICK)))
            MICROBIT_COMPONENT_RUNNING =
  test_flag st MICROBIT_COMPONENT_RUNNING.
Proof.
  etransitivity; [apply (test_flag_clear st 1 0); lia | apply andb_true_r].
Qed.

Lemma QD_start_effect (this : Component) (s : QD.t) (w : World) :
  Effect this (QuadratureDecoder s) w
         (QuadratureDecoder (snd (fst (QD.start this s w))))
         (snd (QD.start this s w)).
Proof.
  destruct (Z.eq_dec (NRF_QDEC w ENABLE) 0) as [He|He];
    [destruct (QD.running s) eqn:Hr|].
  - rewrite QD_start_busy by now right. now apply Eff_none.
  - destruct (QD_start_ok this s w He Hr) as (w' & -> & He' & _ & _ & _ & Ht & _).
    cbn [fst snd]. apply Eff_claim; cbn [drv_running drv_polling];
      try assumption.
    + unfold QD.running. cbn [QD.status QD.set_status].
      apply running_after_set.
    + unfold QD.usingSystemTick. cbn [QD.status QD.set_status].
      apply tick_after_set_running.
    + rewrite He'. discriminate.
  - rewrite QD_start_busy by now left. now apply Eff_none.
Qed.

Lemma QDec_start_effect (this : Component) (s : QDec.t) (w : World) :
  Effect this (QDecoder s) w
         (QDecoder (snd (fst (QDec.start this s w))))
         (snd (QDec.start this s w)).
Proof.
  destruct (Z.eq_dec (NRF_QDEC w ENABLE) 0) as [He|He];
    [destruct (QDec.running s) eqn:Hr|].
  - rewrite QDec_start_busy by now right. now apply Eff_none.
  - destruct (QDec_start_ok this s w He Hr)
      as (w' & -> & He' & _ & _ & _ & Ht & _).
    cbn [fst snd]. apply Eff_claim; cbn [drv_running drv_polling];
      try assumption.
    + unfold QDec.running. cbn [QDec.status QDec.set_status].
      apply running_after_set.
    + reflexivity.
    + rewrite He'. discriminate.
  - rewrite QDec_start_busy by now left. now apply Eff_none.
Qed.

Lemma QD_stop_effect (this : Component) (s : QD.t) (w : World) :
  Effect this (QuadratureDecoder s) w
         (QuadratureDecoder (fst (QD.stop this s w))) (snd (QD.stop this s w)).
Proof.
  apply Eff_release; cbn [drv_running drv_polling].
  - apply QD_stop_not_running.
  - unfold QD.stop. run_M.
    destruct (QD.usingSystemTick s) eqn:Et; destruct (QD.running s);
      cbn [fst]; try exact Et;
      unfold QD.usingSystemTick in *; cbn [QD.status QD.set_status];
      now rewrite tick_after_clear_running.
  - intros Hr. now rewrite (QD_stop_stopped this s w Hr);
      destruct (QD.usingSystemTick s).
  - intros Hr. now apply QD_stop_running.
  - unfold QD.stop. run_M.
    now destruct (QD.usingSystemTick s); destruct (QD.running s).
Qed.

Lemma QDec_stop_effect (this : Component) (s : QDec.t) (w : World) :
  Effect this (QDecoder s) w
         (QDecoder (fst (QDec.stop this s w))) (snd (QDec.stop this s w)).
Proof.
  apply Eff_release; cbn [drv_running drv_polling].
  - apply QDec_stop_not_running.
  - unfold QDec.stop. run_M.
    destruct (QDec.running s); cbn [QDec.useSystemTick QDec.set_status];
      destruct (QDec.useSystemTick s) eqn:Et;
      cbn [fst QDec.useSystemTick QDec.set_status]; auto.
  - intros Hr. now rewrite (QDec_stop_stopped this s w Hr);
      destruct (QDec.useSystemTick s).
  - intros Hr. now apply QDec_stop_running.
  - unfold QDec.stop. run_M.
    destruct (QDec.running s); cbn [QDec.useSystemTick QDec.set_status];
      now destruct (QDec.useSystemTick s).
Qed.

Lemma QD_enableSystemTick_effect (this : Component) (s : QD.t) (w : World) :
  Effect this (QuadratureDecoder s) w
         (QuadratureDecoder (fst (QD.enableSystemTick this s w)))
         (snd (QD.enableSystemTick this s w)).
Proof.
  unfold QD.enableSystemTick.
  destruct (QD.usingSystemTick s) eqn:Et; cbn [negb].
  - apply Eff_request; cbn [drv_running drv_polling ret fst snd];
      rewrite ?Et; auto.
  - run_M. unfold QD.running, QD.usingSystemTick in *.
    cbn [QD.status QD.set_status].
    rewrite running_after_set_tick.
    destruct (test_flag (QD.status s) MICROBIT_COMPONENT_RUNNING) eqn:Er;
      cbn [fst snd];
      apply Eff_request; cbn [drv_running drv_polling];
      unfold QD.running, QD.usingSystemTick;
      cbn [QD.status QD.set_status NRF_QDEC systemTickComponents];
      rewrite ?running_after_set_tick, ?tick_after_set_tick, ?Et, ?Er;
      auto.
Qed.

Lemma QDec_enableSystemTick_effect
      (this : Component) (s : QDec.t) (w : World) :
  Effect this (QDecoder s) w
         (QDecoder (fst (QDec.enableSystemTick this s w)))
         (snd (QDec.enableSystemTick this s w)).
Proof.
  unfold QDec.enableSystemTick.
  destruct (QDec.useSystemTick s) eqn:Et; cbn [negb].
  - apply Eff_request; cbn [drv_running drv_polling ret fst snd];
      rewrite ?Et; auto.
  - run_M. unfold QDec.running.
    cbn [QDec.status QDec.set_useSystemTick].
    destruct (test_flag (QDec.status s) MICROBIT_COMPONENT_RUNNING) eqn:Er;
      cbn [fst snd];
      apply Eff_request; cbn [drv_running drv_polling];
      unfold QDec.running;
      cbn [QDec.status QDec.useSystemTick QDec.set_useSystemTick
           NRF_QDEC systemTickComponents];
      rewrite ?Et, ?Er; auto.
Qed.

Lemma QD_disableSystemTick_effect (this : Component) (s : QD.t) (w : World) :
  Effect this (QuadratureDecoder s) w
         (QuadratureDecoder (fst (QD.disableSystemTick this s w)))
         (snd (QD.disableSystemTick this s w)).
Proof.
  unfold QD.disableSystemTick. run_M.
  unfold QD.running. cbn [QD.status QD.set_status].
  rewrite running_after_clear_tick.
  destruct (test_flag (QD.status s) MICROBIT_COMPONENT_RUNNING) eqn:Er;
    cbn [fst snd];
    apply Eff_withdraw; cbn [drv_running drv_polling];
    unfold QD.running, QD.usingSystemTick;
    cbn [QD.status QD.set_status NRF_QDEC systemTickComponents];
    rewrite ?running_after_clear_tick, ?tick_after_clear_tick, ?Er; auto.
Qed.

Lemma QDec_disableSystemTick_effect
      (this : Component) (s : QDec.t) (w : World) :
  Effect this (QDecoder s) w
         (QDecoder (fst (QDec.disableSystemTick this s w)))
         (snd (QDec.disableSystemTick this s w)).
Proof.
  unfold QDec.disableSystemTick. run_M.
  unfold QDec.running. cbn [QDec.status QDec.set_useSystemTick].
  destruct (test_flag (QDec.status s) MICROBIT_COMPONENT_RUNNING) eqn:Er;
    cbn [fst snd];
    apply Eff_withdraw; cbn [drv_running drv_polling];
    unfold QDec.running;
    cbn [QDec.status QDec.useSystemTick QDec.set_useSystemTick
         NRF_QDEC systemTickComponents];
    rewrite ?Er; auto.
Qed.

Lemma QD_poll_effect (this : Component) (s : QD.t) (w : World) :
  Effect this (QuadratureDecoder s) w
         (QuadratureDecoder (fst (QD.poll s w))) (snd (QD.poll s w)).
Proof. unfold QD.poll. run_M. now apply Eff_none. Qed.

Lemma QDec_poll_effect (this : Component) (s : QDec.t) (w : World) :
  Effect this (QDecoder s) w
         (QDecoder (fst (QDec.poll s w))) (snd (QDec.poll s w)).
Proof. unfold QDec.poll. run_M. now apply Eff_none. Qed.

(** Every member call has one of the five effects. *)
Lemma invoke_effect (m : Method) (this : Component) (d : Driver)
      (c : M Driver) (w : World) :
  invoke m this d = Some c ->
  Effect this d w (fst (c w)) (snd (c w)).
Proof.
  destruct m, d; cbn [invoke drv_start drv_stop]; intros [= <-];
    unfold bind, ret.
  - pose proof (QD_start_effect this s w) as H.
    destruct (QD.start this s w) as [[r s'] w']. exact H.
  - pose proof (QDec_start_effect this s w) as H.
    destruct (QDec.start this s w) as [[r s'] w']. exact H.
  - pose proof (QD_stop_effect this s w) as H.
    destruct (QD.stop this s w) as [s' w']. exact H.
  - pose proof (QDec_stop_effect this s w) as H.
    destruct (QDec.stop this s w) as [s' w']. exact H.
  - pose proof (QD_poll_effect this s w) as H.
    destruct (QD.poll s w) as [s' w']. exact H.
  - pose proof (QDec_poll_effect this s w) as H.
    destruct (QDec.poll s w) as [s' w']. exact H.
  - pose proof (QD_poll_effect this s w) as H. unfold QD.systemTick.
    destruct (QD.poll s w) as [s' w']. exact H.
  - pose proof (QDec_poll_effect this s w) as H. unfold QDec.systemTick.
    destruct (QDec.poll s w) as [s' w']. exact H.
  - pose proof (QD_enableSystemTick_effect this s w) as H.
    destruct (QD.enableSystemTick this s w) as [s' w']. exact H.
  - pose proof (QDec_enableSystemTick_effect this s w) as H.
    destruct (QDec.enableSystemTick this s w) as [s' w']. exact H.
  - pose proof (QD_disableSystemTick_effect this s w) as H.
    destruct (QD.disableSystemTick this s w) as [s' w']. exact H.
  - pose proof (QDec_disableSystemTick_effect this s w) as H.
    destruct (QDec.disableSystemTick this s w) as [s' w']. exact H.
  - now apply Eff_none.
  - now apply Eff_none.
  - unfold QD.setSamplePeriodUs, ret. destruct (p <? 128); now apply Eff_none.
Qed.

(** * Several instances: the invariants *)

Lemma place_same (this : Component) (d : option Driver)
      (f : Component -> option Driver) : place this d f this = d.
Proof. unfold place. now rewrite Nat.eqb_refl. Qed.

Lemma place_other (this c : Component) (d : option Driver)
      (f : Component -> option Driver) :
  c <> this -> place this d f c = f c.
Proof.
  intros H. unfold place. now destruct (Nat.eqb_spec c this).
Qed.

Lemma count_remove_first_other (c i : Component) (l : list Component) :
  i <> c ->
  count_occ Nat.eq_dec (remove_first c l) i = count_occ Nat.eq_dec l i.
Proof.
  intros Hne. induction l as [|x l IH]; cbn [remove_first]; [reflexivity|].
  destruct (Nat.eqb_spec x c) as [->|Hx].
  - cbn [count_occ]. destruct (Nat.eq_dec c i); [congruence | reflexivity].
  - cbn [count_occ]. now rewrite IH.
Qed.

Lemma count_app_one (c i : Component) (l : list Component) :
  count_occ Nat.eq_dec (l ++ [c]) i =
  (count_occ Nat.eq_dec l i + if Nat.eqb c i then 1 else 0)%nat.
Proof.
  rewrite count_occ_app. cbn [count_occ].
  destruct (Nat.eq_dec c i) as [->|Hne].
  - now rewrite Nat.eqb_refl.
  - now destruct (Nat.eqb_spec c i).
Qed.

(** A call changes no entry of another instance. *)
Lemma effect_count_other (this i : Component) (d d' : Driver) (w w' : World) :
  Effect this d w d' w' -> i <> this ->
  registrations i w' = registrations i w.
Proof.
  intros HE Hne. unfold registrations.
  destruct HE as [_ _ _ Ht | _ _ _ _ _ Ht | _ _ _ _ Ht | _ _ _ Ht | _ _ _ Ht];
    rewrite Ht; try reflexivity.
  - destruct (drv_polling d); [now apply count_remove_first_other | reflexivity].
  - destruct (drv_polling d); [now apply count_remove_first_other | reflexivity].
  - destruct (negb (drv_polling d) && drv_running d); [|reflexivity].
    rewrite count_app_one. destruct (Nat.eqb_spec this i); [congruence | lia].
  - destruct (drv_running d); [now apply count_remove_first_other | reflexivity].
Qed.

(** A call keeps the caller's entries within what its flags allow. *)
Lemma effect_count_self (this : Component) (d d' : Driver) (w w' : World) :
  Effect this d w d' w' ->
  (registrations this w <= may_register (Some d))%nat ->
  (registrations this w' <= may_register (Some d'))%nat.
Proof.
  intros HE. unfold registrations, may_register.
  destruct HE as [Hr Hp _ Ht | _ Hr Hr' Hp _ Ht | Hr' Hp _ _ Ht
                  | Hr' Hp' _ Ht | Hr' Hp' _ Ht];
    rewrite Ht.
  - now rewrite Hr, Hp.
  - rewrite Hr, Hr', Hp. cbn [andb]. intros H.
    destruct (drv_polling d); [rewrite count_remove_first|]; lia.
  - rewrite Hr'. cbn [andb]. intros H.
    destruct (drv_polling d).
    + rewrite count_remove_first. destruct (drv_running d); cbn [andb] in H; lia.
    + rewrite andb_false_r in H. exact H.
  - rewrite Hr', Hp'. destruct (drv_polling d); cbn [negb andb].
    + now rewrite andb_true_r.
    + rewrite andb_false_r. intros H. rewrite andb_true_r.
      destruct (drv_running d); [|exact H].
      rewrite count_app_one, Nat.eqb_refl. lia.
  - rewrite Hr', Hp'. rewrite andb_false_r. intros H.
    destruct (drv_running d); [rewrite count_remove_first|].
    + destruct (drv_polling d); cbn [andb] in H; lia.
    + exact H.
Qed.

(** A call keeps exclusivity and the claim on the peripheral. *)
Lemma effect_ownership (this : Component) (d d' : Driver) (w w' : World)
      (insts : Component -> option Driver) :
  exclusive (mkSystem insts w) -> claimed (mkSystem insts w) ->
  insts this = Some d -> Effect this d w d' w' ->
  exclusive (mkSystem (place this (Some d') insts) w') /\
  claimed (mkSystem (place this (Some d') insts) w').
Proof.
  unfold exclusive, claimed. cbn [instances world]. intros Hex Hcl Hd HE.
  assert (Hsame : forall j dj, j <> this -> insts j = Some dj ->
                               drv_running dj = true ->
                               drv_running d = false /\
                               NRF_QDEC w ENABLE <> 0).
  { intros j dj Hne Hj Hrj. split; [|now apply (Hcl j dj)].
    destruct (drv_running d) eqn:Hr; [|reflexivity].
    exfalso. apply Hne. now apply (Hex j this dj d). }
  split.
  - intros i j di dj Hi Hj Hri Hrj.
    destruct (Nat.eq_dec i this) as [->|Hni];
      destruct (Nat.eq_dec j this) as [->|Hnj]; try reflexivity.
    + rewrite place_same in Hi. rewrite place_other in Hj by assumption.
      injection Hi as <-.
      destruct (Hsame j dj Hnj Hj Hrj) as [Hr He].
      destruct HE as [Hr' _ _ _ | He0 _ _ _ _ _ | Hr' _ _ _ _
                      | Hr' _ _ _ | Hr' _ _ _]; congruence.
    + rewrite place_same in Hj. rewrite place_other in Hi by assumption.
      injection Hj as <-.
      destruct (Hsame i di Hni Hi Hri) as [Hr He].
      destruct HE as [Hr' _ _ _ | He0 _ _ _ _ _ | Hr' _ _ _ _
                      | Hr' _ _ _ | Hr' _ _ _]; congruence.
    + rewrite place_other in Hi, Hj by assumption. now apply (Hex i j di dj).
  - intros i di Hi Hri.
    destruct (Nat.eq_dec i this) as [->|Hni].
    + rewrite place_same in Hi. injection Hi as <-.
      destruct HE as [Hr' _ He _ | _ _ _ _ He _ | Hr' _ _ _ _
                      | Hr' _ He _ | Hr' _ He _];
        try congruence;
        rewrite He; apply (Hcl this d Hd); congruence.
    + rewrite place_other in Hi by assumption.
      destruct (Hsame i di Hni Hi Hri) as [Hr He].
      destruct HE as [_ _ He' _ | He0 _ _ _ _ _ | _ _ He' _ _
                      | _ _ He' _ | _ _ He' _];
        try congruence; rewrite He' by assumption; assumption.
Qed.

(** Taking an instance away keeps both. *)
Lemma remove_ownership (this : Component) (d' : option Driver) (w : World)
      (insts : Component -> option Driver) :
  exclusive (mkSystem (place this d' insts) w) ->
  claimed (mkSystem (place this d' insts) w) ->
  exclusive (mkSystem (place this None insts) w) /\
  claimed (mkSystem (place this None insts) w).
Proof.
  unfold exclusive, claimed. cbn [instances world]. intros Hex Hcl.
  assert (Hsub : forall i di, place this None insts i = Some di ->
                              place this d' insts i = Some di).
  { intros i di. unfold place. now destruct (Nat.eqb i this). }
  split.
  - intros i j di dj Hi Hj. apply (Hex i j di dj); now apply Hsub.
  - intros i di Hi. apply (Hcl i di). now apply Hsub.
Qed.

(** A constructor step adds an instance that is not running; the world is
    as it was. *)
Lemma new_steps_not_running (st : Step) (sys sys' : System) :
  match st with
  | Call _ _ | Delete _ | Movement _ _ => False
  | _ => True
  end ->
  step st sys = Some sys' ->
  exists this d, instances sys this = None /\ drv_running d = false /\
                 (forall s, d = QuadratureDecoder s -> QD.samplePeriod s = 128) /\
                 sys' = mkSystem (place this (Some d) (instances sys))
                                 (world sys).
Proof.
  destruct st; try contradiction; intros _; cbn [step]; unfold construct;
    (destruct (instances sys this) eqn:Hi; [discriminate|]);
    unfold bind, ret.
  - pose proof (QD_new_fresh pA pB pL LEDDelay flags (world sys)) as H.
    cbv zeta in H.
    destruct (QD.new pA pB pL LEDDelay flags (world sys)) as [s w].
    cbn [fst snd] in H. destruct H as (Hr & _ & _ & Hp & ->).
    intros [= <-]. exists this, (QuadratureDecoder s).
    repeat split; try assumption. now intros s' [= <-].
  - pose proof (QD_new_noLED_fresh pA pB flags (world sys)) as H.
    cbv zeta in H.
    destruct (QD.new_noLED pA pB flags (world sys)) as [s w].
    cbn [fst snd] in H. destruct H as (Hr & _ & _ & Hp & ->).
    intros [= <-]. exists this, (QuadratureDecoder s).
    repeat split; try assumption. now intros s' [= <-].
  - pose proof (QDec_new_fresh errors_storage pA pB pL cfg (world sys)) as H.
    cbv zeta in H.
    destruct (QDec.new errors_storage pA pB pL cfg (world sys)) as [s w].
    cbn [fst snd] in H. destruct H as (Hr & _ & _ & _ & ->).
    intros [= <-]. exists this, (QDecoder s).
    repeat split; try assumption. discriminate.
Qed.

Lemma step_ownership (st : Step) (sys sys' : System) :
  exclusive sys -> claimed sys -> step st sys = Some sys' ->
  exclusive sys' /\ claimed sys'.
Proof.
  intros Hex Hcl Hst. destruct sys as [insts w].
  destruct st as [this pA pB pL dl fl | this pA pB fl
                  | this g pA pB pL cfg | this m | this | d e].
  1-3: (apply new_steps_not_running in Hst; [|exact I];
        destruct Hst as (this' & d & Hi & Hr & _ & ->);
        cbn [instances world] in *;
        unfold exclusive, claimed in *; cbn [instances world] in *; split;
        [ intros i j di dj Hpi Hpj Hri Hrj;
          destruct (Nat.eq_dec i this') as [->|Hni];
          [ rewrite place_same in Hpi; congruence |];
          destruct (Nat.eq_dec j this') as [->|Hnj];
          [ rewrite place_same in Hpj; congruence |];
          rewrite place_other in Hpi, Hpj by assumption;
          now apply (Hex i j di dj)
        | intros i di Hpi Hri;
          destruct (Nat.eq_dec i this') as [->|Hni];
          [ rewrite place_same in Hpi; congruence |];
          rewrite place_other in Hpi by assumption;
          now apply (Hcl i di) ]).
  - cbn [step instances world] in Hst.
    destruct (insts this) as [d|] eqn:Hd; [|discriminate].
    destruct (invoke m this d) as [c|] eqn:Hc; [|discriminate].
    pose proof (invoke_effect m this d c w Hc) as HE.
    destruct (c w) as [d' w']. injection Hst as <-.
    now apply (effect_ownership this d d' w w').
  - cbn [step instances world] in Hst.
    destruct (insts this) as [[s|s]|] eqn:Hd; [| |discriminate].
    + pose proof (QD_stop_effect this s w) as HE. unfold QD.delete in Hst.
      destruct (QD.stop this s w) as [s' w']. injection Hst as <-.
      cbn [fst snd] in HE.
      destruct (effect_ownership this _ _ w w' insts Hex Hcl Hd HE).
      now apply (remove_ownership this (Some (QuadratureDecoder s'))).
    + pose proof (QDec_stop_effect this s w) as HE. unfold QDec.delete in Hst.
      destruct (QDec.stop this s w) as [s' w']. injection Hst as <-.
      cbn [fst snd] in HE.
      destruct (effect_ownership this _ _ w w' insts Hex Hcl Hd HE).
      now apply (remove_ownership this (Some (QDecoder s'))).
  - cbn [step instances world] in Hst. injection Hst as <-.
    unfold exclusive, claimed in *. cbn [instances world] in *.
    split; [exact Hex|]. exact Hcl.
Qed.

Lemma step_registered (st : Step) (sys sys' : System) :
  registered_bound sys -> step st sys = Some sys' -> registered_bound sys'.
Proof.
  intros Hb Hst. destruct sys as [insts w].
  unfold registered_bound in *. cbn [instances world] in *.
  destruct st as [this pA pB pL dl fl | this pA pB fl
                  | this g pA pB pL cfg | this m | this | d e].
  1-3: (apply new_steps_not_running in Hst; [|exact I];
        destruct Hst as (this' & d & Hi & Hr & _ & ->);
        cbn [instances world] in *; intros i;
        destruct (Nat.eq_dec i this') as [->|Hni];
        [ rewrite place_same; specialize (Hb this'); rewrite Hi in Hb; lia
        | rewrite place_other by assumption; apply Hb ]).
  - cbn [step instances world] in Hst.
    destruct (insts this) as [d|] eqn:Hd; [|discriminate].
    destruct (invoke m this d) as [c|] eqn:Hc; [|discriminate].
    pose proof (invoke_effect m this d c w Hc) as HE.
    destruct (c w) as [d' w']. injection Hst as <-.
    cbn [instances world fst snd] in *. intros i.
    destruct (Nat.eq_dec i this) as [->|Hni].
    + rewrite place_same. apply (effect_count_self this d d' w w' HE).
      specialize (Hb this). now rewrite Hd in Hb.
    + rewrite place_other by assumption.
      rewrite (effect_count_other this i d d' w w' HE Hni). apply Hb.
  - cbn [step instances world] in Hst.
    destruct (insts this) as [[s|s]|] eqn:Hd; [| |discriminate].
    + pose proof (QD_stop_effect this s w) as HE. unfold QD.delete in Hst.
      pose proof (QD_stop_not_running this s w) as Hnr.
      destruct (QD.stop this s w) as [s' w']. injection Hst as <-.
      cbn [instances world fst snd] in *. intros i.
      destruct (Nat.eq_dec i this) as [->|Hni].
      * rewrite place_same.
        pose proof (effect_count_self this _ _ w w' HE) as H.
        unfold may_register in H. cbn [drv_running] in H.
        rewrite Hnr in H. cbn [andb] in H. apply H.
        specialize (Hb this). now rewrite Hd in Hb.
      * rewrite place_other by assumption.
        rewrite (effect_count_other this i _ _ w w' HE Hni). apply Hb.
    + pose proof (QDec_stop_effect this s w) as HE. unfold QDec.delete in Hst.
      pose proof (QDec_stop_not_running this s w) as Hnr.
      destruct (QDec.stop this s w) as [s' w']. injection Hst as <-.
      cbn [instances world fst snd] in *. intros i.
      destruct (Nat.eq_dec i this) as [->|Hni].
      * rewrite place_same.
        pose proof (effect_count_self this _ _ w w' HE) as H.
        unfold may_register in H. cbn [drv_running] in H.
        rewrite Hnr in H. cbn [andb] in H. apply H.
        specialize (Hb this). now rewrite Hd in Hb.
      * rewrite place_other by assumption.
        rewrite (effect_count_other this i _ _ w w' HE Hni). apply Hb.
  - cbn [step instances world] in Hst. injection Hst as <-.
    cbn [instances world]. exact Hb.
Qed.

(** A call leaves a [MicroBitQuadratureDecoder] one, with a sample period
    that is either the old one or at least 128. *)
Lemma invoke_period (m : Method) (this : Component) (s : QD.t)
      (c : M Driver) (w : World) :
  invoke m this (QuadratureDecoder s) = Some c ->
  exists s', fst (c w) = QuadratureDecoder s' /\
             (QD.samplePeriod s' = QD.samplePeriod s \/
              128 <= QD.samplePeriod s').
Proof.
  destruct m; cbn [invoke drv_start drv_stop]; intros [= <-];
    unfold bind, ret.
  - unfold QD.start. run_M.
    destruct (negb (NRF_QDEC w ENABLE =? 0) || QD.running s);
      [eexists; split; [reflexivity | now left]|].
    destruct (negb (name (QD.LED s) =? NC));
      match goal with
      | |- context [if ?b then _ else _] => destruct b
      end; eexists; (split; [reflexivity | now left]).
  - unfold QD.stop. run_M.
    destruct (QD.usingSystemTick s); destruct (QD.running s);
      eexists; (split; [reflexivity | now left]).
  - unfold QD.poll. run_M. eexists; split; [reflexivity | now left].
  - unfold QD.systemTick, QD.poll. run_M.
    eexists; split; [reflexivity | now left].
  - unfold QD.enableSystemTick.
    destruct (negb (QD.usingSystemTick s));
      [|eexists; split; [reflexivity | now left]].
    run_M.
    match goal with
    | |- context [if ?b then _ else _] => destruct b
    end; eexists; (split; [reflexivity | now left]).
  - unfold QD.disableSystemTick. run_M.
    match goal with
    | |- context [if ?b then _ else _] => destruct b
    end; eexists; (split; [reflexivity | now left]).
  - eexists; split; [reflexivity | now left].
  - unfold QD.setSamplePeriodUs, ret.
    destruct (Z.ltb_spec p 128); eexists;
      (split; [reflexivity|]); [now left | now right].
Qed.

Lemma invoke_class (m : Method) (this : Component) (s : QDec.t)
      (c : M Driver) (w : World) :
  invoke m this (QDecoder s) = Some c ->
  exists s', fst (c w) = QDecoder s'.
Proof.
  destruct m; cbn [invoke drv_start drv_stop]; intros [= <-];
    unfold bind, ret.
  - destruct (QDec.start this s w) as [[r s'] w']. now eexists.
  - destruct (QDec.stop this s w) as [s' w']. now eexists.
  - destruct (QDec.poll s w) as [s' w']. now eexists.
  - destruct (QDec.systemTick s w) as [s' w']. now eexists.
  - destruct (QDec.enableSystemTick this s w) as [s' w']. now eexists.
  - destruct (QDec.disableSystemTick this s w) as [s' w']. now eexists.
  - now eexists.
Qed.

Lemma step_periods (st : Step) (sys sys' : System) :
  periods_valid sys -> step st sys = Some sys' -> periods_valid sys'.
Proof.
  intros Hp Hst. destruct sys as [insts w].
  unfold periods_valid in *. cbn [instances world] in *.
  destruct st as [this pA pB pL dl fl | this pA pB fl
                  | this g pA pB pL cfg | this m | this | d e].
  1-3: (apply new_steps_not_running in Hst; [|exact I];
        destruct Hst as (this' & d & Hi & _ & Hnew & ->);
        cbn [instances world] in *; intros i s Hs;
        destruct (Nat.eq_dec i this') as [->|Hni];
        [ rewrite place_same in Hs; injection Hs as ->;
          rewrite (Hnew s eq_refl); lia
        | rewrite place_other in Hs by assumption; now apply (Hp i) ]).
  - cbn [step instances world] in Hst.
    destruct (insts this) as [d|] eqn:Hd; [|discriminate].
    destruct (invoke m this d) as [c|] eqn:Hc; [|discriminate].
    destruct d as [s0|s0].
    + destruct (invoke_period m this s0 c w Hc) as (s' & Hs' & Hper).
      destruct (c w) as [d' w']. cbn [fst] in Hs'. subst d'.
      injection Hst as <-. cbn [instances]. intros i s Hs.
      destruct (Nat.eq_dec i this) as [->|Hni].
      * rewrite place_same in Hs. injection Hs as <-.
        destruct Hper as [-> | H]; [now apply (Hp this) | exact H].
      * rewrite place_other in Hs by assumption. now apply (Hp i).
    + destruct (invoke_class m this s0 c w Hc) as (s' & Hs').
      destruct (c w) as [d' w']. cbn [fst] in Hs'. subst d'.
      injection Hst as <-. cbn [instances]. intros i s Hs.
      destruct (Nat.eq_dec i this) as [->|Hni].
      * rewrite place_same in Hs. discriminate.
      * rewrite place_other in Hs by assumption. now apply (Hp i).
  - cbn [step instances world] in Hst.
    destruct (insts this) as [[s0|s0]|] eqn:Hd; [| |discriminate].
    + destruct (QD.delete this s0 w) as [s' w']. injection Hst as <-.
      cbn [instances]. intros i s Hs.
      destruct (Nat.eq_dec i this) as [->|Hni].
      * rewrite place_same in Hs. discriminate.
      * rewrite place_other in Hs by assumption. now apply (Hp i).
    + destruct (QDec.delete this s0 w) as [s' w']. injection Hst as <-.
      cbn [instances]. intros i s Hs.
      destruct (Nat.eq_dec i this) as [->|Hni].
      * rewrite place_same in Hs. discriminate.
      * rewrite place_other in Hs by assumption. now apply (Hp i).
  - cbn [step] in Hst. injection Hst as <-. exact Hp.
Qed.

(** What every step keeps, every run keeps. *)
Lemma run_invariant (P : System -> Prop) :
  (forall st sys sys', P sys -> step st sys = Some sys' -> P sys') ->
  forall steps sys sys', P sys -> run steps sys = Some sys' -> P sys'.
Proof.
  intros Hstep. induction steps as [|st rest IH]; intros sys sys' HP Hrun.
  - cbn in Hrun. now injection Hrun as <-.
  - cbn [run] in Hrun. destruct (step st sys) as [sys1|] eqn:Hst;
      [|discriminate].
    apply (IH sys1); [|exact Hrun]. now apply (Hstep st sys).
Qed.

(** * Either class through [Driver] *)

Lemma drv_start_busy (this : Component) (d : Driver) (w : World) :
  NRF_QDEC w ENABLE <> 0 \/ drv_running d = true ->
  drv_start this d w = (MICROBIT_BUSY, d, log (RegRead ENABLE) w).
Proof.
  intros H. destruct d as [s|s]; cbn [drv_start drv_running] in *;
    unfold bind, ret.
  - now rewrite QD_start_busy.
  - now rewrite QDec_start_busy.
Qed.

Lemma drv_start_ok (this : Component) (d : Driver) (w : World) :
  NRF_QDEC w ENABLE = 0 -> drv_running d = false ->
  fst (fst (drv_start this d w)) = MICROBIT_OK /\
  drv_running (snd (fst (drv_start this d w))) = true /\
  NRF_QDEC (snd (drv_start this d w)) ENABLE = 1.
Proof.
  intros He Hr. destruct d as [s|s]; cbn [drv_start drv_running] in *;
    unfold bind, ret.
  - destruct (QD_start_ok this s w He Hr) as (w' & -> & He' & _).
    cbn [fst snd drv_running]. repeat split; try assumption.
    unfold QD.running. cbn [QD.status QD.set_status].
    apply running_after_set.
  - destruct (QDec_start_ok this s w He Hr) as (w' & -> & He' & _).
    cbn [fst snd drv_running]. repeat split; try assumption.
    unfold QDec.running. cbn [QDec.status QDec.set_status].
    apply running_after_set.
Qed.

(** [start()] returns [MICROBIT_OK] only on a free peripheral and a
    stopped instance. *)
Lemma drv_start_ok_only (this : Component) (d : Driver) (w : World) :
  fst (fst (drv_start this d w)) = MICROBIT_OK ->
  NRF_QDEC w ENABLE = 0 /\ drv_running d = false.
Proof.
  intros H.
  destruct (Z.eq_dec (NRF_QDEC w ENABLE) 0) as [He|He];
    [destruct (drv_running d) eqn:Hr|].
  - rewrite drv_start_busy in H by now right. discriminate.
  - now split.
  - rewrite drv_start_busy in H by now left. discriminate.
Qed.

Lemma drv_stop_releases (this : Component) (d : Driver) (w : World) :
  drv_running d = true ->
  drv_running (fst (drv_stop this d w)) = false /\
  NRF_QDEC (snd (drv_stop this d w)) ENABLE = 0.
Proof.
  intros Hr. destruct d as [s|s]; cbn [drv_stop drv_running] in *;
    unfold bind, ret.
  - pose proof (QD_stop_not_running this s w) as H1.
    pose proof (QD_stop_running this s w Hr) as [H2 _].
    destruct (QD.stop this s w) as [s' w']. now split.
  - pose proof (QDec_stop_not_running this s w) as H1.
    pose proof (QDec_stop_running this s w Hr) as [H2 _].
    destruct (QDec.stop this s w) as [s' w']. now split.
Qed.

Lemma QD_start_ok_only (this : Component) (s : QD.t) (w : World) :
  fst (fst (QD.start this s w)) = MICROBIT_OK ->
  NRF_QDEC w ENABLE = 0 /\ QD.running s = false.
Proof.
  intros H.
  destruct (Z.eq_dec (NRF_QDEC w ENABLE) 0) as [He|He];
    [destruct (QD.running s) eqn:Hr|].
  - rewrite QD_start_busy in H by now right. discriminate.
  - now split.
  - rewrite QD_start_busy in H by now left. discriminate.
Qed.

(** * Further properties, X1 onwards *)

(** X1 : The error count of [MicroBitQuadratureDecoder] saturates.  For
    double-transition counts that keep the sum within [int], drained one
    per poll, [getErrors()] after the polls is the initial count plus the
    drained counts, capped at [UINT16_MAX]; it never decreases and never
    exceeds [UINT16_MAX]. *)
Theorem QD_errors_saturate (drains : list (Z * Z)) (s : QD.t) (w : World) :
  Forall (fun de => in_accdbl (snd de)) drains ->
  0 <= QD.errors s <= UINT16_MAX ->
  QD.getErrors (fst (QD.polls drains s w)) =
    Z.min UINT16_MAX (QD.errors s + Zsum (map snd drains)) /\
  QD.getErrors s <= QD.getErrors (fst (QD.polls drains s w)) <= UINT16_MAX.
Proof.
  intros Hd Hs. unfold QD.getErrors.
  destruct (QD_polls_errors_saturate drains Hd s w Hs) as [H1 H2].
  split; [exact H1|]. split; [exact H2|]. rewrite H1. apply Z.le_min_l.
Qed.

Lemma QD_errors_saturate_witness :
  QD.getErrors (fst (QD.polls [(1, 60000); (1, 10000)] qd_moved world0))
    = 65535.
Proof.
  assert (Hd : Forall (fun de => in_accdbl (snd de))
                      [(1, 60000); (1, 10000)]).
  { repeat apply Forall_cons; try apply Forall_nil;
      unfold in_accdbl, UINT16_MAX; cbn [snd]; lia. }
  assert (Hs : 0 <= QD.errors qd_moved <= UINT16_MAX).
  { unfold UINT16_MAX. cbn. lia. }
  destruct (QD_errors_saturate _ qd_moved world0 Hd Hs) as [H _].
  rewrite H. reflexivity.
Defined.

(** X2 : The level [start()] programs from the floor up.  On a free
    peripheral and a stopped instance whose sample period is at least 128,
    [start()] returns [MICROBIT_OK] and [SAMPLEPER] holds the largest [k]
    in 0..7 with [128 * 2^k] not above the period.  In both classes. *)
Theorem start_programs_largest_level (this : Component) (w : World) :
  NRF_QDEC w ENABLE = 0 ->
  (forall s : QD.t,
      QD.running s = false -> 128 <= QD.samplePeriod s ->
      fst (fst (QD.start this s w)) = MICROBIT_OK /\
      largest_level (QD.samplePeriod s)
                    (NRF_QDEC (snd (QD.start this s w)) SAMPLEPER)) /\
  (forall s : QDec.t,
      QDec.running s = false -> 128 <= QDec.samplePeriod s ->
      fst (fst (QDec.start this s w)) = MICROBIT_OK /\
      largest_level (QDec.samplePeriod s)
                    (NRF_QDEC (snd (QDec.start this s w)) SAMPLEPER)).
Proof.
  intros He. split; intros s Hr Hp.
  - now apply QD_start_sampleper.
  - now apply QDec_start_sampleper.
Qed.

Lemma start_programs_largest_level_witness :
  NRF_QDEC (snd (QD.start this0 (QD.set_samplePeriod 500 qd_fresh) world0))
           SAMPLEPER = 1 /\
  largest_level 500
    (NRF_QDEC (snd (QD.start this0 (QD.set_samplePeriod 500 qd_fresh) world0))
              SAMPLEPER) /\
  largest_level 128
    (NRF_QDEC (snd (QDec.start this0 qdec_fresh world0)) SAMPLEPER).
Proof.
  destruct (start_programs_largest_level this0 world0 eq_refl) as [Ha Hb].
  split; [reflexivity|]. split.
  - apply (Ha (QD.set_samplePeriod 500 qd_fresh)); [reflexivity | cbn; lia].
  - apply (Hb qdec_fresh); [reflexivity | cbn; lia].
Defined.

(** X3 : [MicroBitQuadratureDecoder] never programs a level out of range.
    In every system a program reaches from boot (constructors, member
    calls, destructors of both classes in any order), each
    [MicroBitQuadratureDecoder] has a sample period of at least 128: the
    initialiser gives 128 and [setSamplePeriodUs] stores nothing smaller.
    So whenever its [start()] returns [MICROBIT_OK], [SAMPLEPER] holds the
    largest level 0..7 that fits the period. *)
Theorem QD_reachable_start_level (steps : list Step) (q : NRF_QDEC_Type)
        (sys : System) (this : Component) (s : QD.t) :
  run steps (boot q) = Some sys ->
  instances sys this = Some (QuadratureDecoder s) ->
  128 <= QD.samplePeriod s /\
  (fst (fst (QD.start this s (world sys))) = MICROBIT_OK ->
   largest_level (QD.samplePeriod s)
                 (NRF_QDEC (snd (QD.start this s (world sys))) SAMPLEPER)).
Proof.
  intros Hrun Hi.
  assert (Hp : periods_valid sys).
  { apply (run_invariant periods_valid step_periods steps (boot q));
      [|exact Hrun].
    intros i s' H. discriminate. }
  split; [now apply (Hp this)|].
  intros Hok. destruct (QD_start_ok_only this s (world sys) Hok) as [He Hr].
  apply QD_start_sampleper; try assumption. now apply (Hp this).
Qed.

Lemma QD_reachable_start_level_witness :
  instances (reached period_program (fun _ => 0)) 1%nat
    = Some (QuadratureDecoder (QD.set_samplePeriod 500 qd_fresh)) /\
  largest_level 500
    (NRF_QDEC (snd (QD.start 1%nat (QD.set_samplePeriod 500 qd_fresh)
                             (world (reached period_program (fun _ => 0)))))
              SAMPLEPER).
Proof.
  split; [vm_compute; reflexivity|].
  refine (proj2 (QD_reachable_start_level period_program (fun _ => 0)
                   (reached period_program (fun _ => 0)) 1%nat
                   (QD.set_samplePeriod 500 qd_fresh) _ _) _);
    vm_compute; reflexivity.
Defined.

(** X4 : One owner.  In every system a program reaches from boot, at most
    one instance (of either class) is running, and while one is running
    [ENABLE] is non-zero, so that every other [start()] returns
    [MICROBIT_BUSY]. *)
Theorem one_owner (steps : list Step) (q : NRF_QDEC_Type) (sys : System) :
  run steps (boot q) = Some sys -> exclusive sys /\ claimed sys.
Proof.
  apply (run_invariant (fun sys => exclusive sys /\ claimed sys)).
  - intros st s1 s2 [Hex Hcl]. now apply step_ownership.
  - split.
    + intros i j di dj H. discriminate.
    + intros i d H. discriminate.
Qed.

Lemma one_owner_witness :
  option_map drv_running (instances (reached demo_program (fun _ => 0)) 2%nat)
    = Some true /\
  exclusive (reached demo_program (fun _ => 0)) /\
  claimed (reached demo_program (fun _ => 0)).
Proof.
  split; [vm_compute; reflexivity|].
  apply (one_owner demo_program (fun _ => 0)). vm_compute. reflexivity.
Defined.

(** X5 : Registrations follow the flags.  In every system a program
    reaches from boot, the component table holds the address of an
    instance at most once, and only while that instance is running with
    periodic polling requested; it holds no address of a stopped or
    destroyed instance. *)
Theorem registered_only_while_polling
        (steps : list Step) (q : NRF_QDEC_Type) (sys : System) :
  run steps (boot q) = Some sys -> registered_bound sys.
Proof.
  apply (run_invariant registered_bound step_registered).
  intros i. cbn. lia.
Qed.

Lemma registered_only_while_polling_witness :
  registrations 1%nat (world (reached (firstn 5 demo_program) (fun _ => 0)))
    = 1%nat /\
  registered_bound (reached (firstn 5 demo_program) (fun _ => 0)).
Proof.
  split; [vm_compute; reflexivity|].
  apply (registered_only_while_polling (firstn 5 demo_program) (fun _ => 0)).
  vm_compute. reflexivity.
Defined.

(** X6 : Handing the peripheral over.  Once a [start()] has returned
    [MICROBIT_OK], the [start()] of any instance of either class returns
    [MICROBIT_BUSY] and leaves that instance as it was; once the owner has
    called [stop()], the [start()] of any stopped instance returns
    [MICROBIT_OK]. *)
Theorem handover (i j : Component) (a b : Driver) (w : World) :
  fst (fst (drv_start i a w)) = MICROBIT_OK ->
  let a1 := snd (fst (drv_start i a w)) in
  let w1 := snd (drv_start i a w) in
  fst (drv_start j b w1) = (MICROBIT_BUSY, b) /\
  (drv_running b = false ->
   fst (fst (drv_start j b (snd (drv_stop i a1 w1)))) = MICROBIT_OK).
Proof.
  intros Hok. cbv zeta.
  destruct (drv_start_ok_only i a w Hok) as [He Hr].
  destruct (drv_start_ok i a w He Hr) as (_ & Hr1 & He1).
  split.
  - rewrite drv_start_busy; [reflexivity|]. left. rewrite He1. discriminate.
  - intros Hb.
    destruct (drv_stop_releases i _ (snd (drv_start i a w)) Hr1) as [_ He2].
    now apply drv_start_ok.
Qed.

Lemma handover_witness :
  fst (drv_start 2%nat (QDecoder qdec_fresh)
                 (snd (drv_start 1%nat (QuadratureDecoder qd_fresh) world0)))
    = (MICROBIT_BUSY, QDecoder qdec_fresh) /\
  fst (fst (drv_start 2%nat (QDecoder qdec_fresh)
              (snd (drv_stop 1%nat
                      (snd (fst (drv_start 1%nat (QuadratureDecoder qd_fresh)
                                           world0)))
                      (snd (drv_start 1%nat (QuadratureDecoder qd_fresh)
                                      world0))))))
    = MICROBIT_OK.
Proof.
  destruct (handover 1%nat 2%nat (QuadratureDecoder qd_fresh)
                     (QDecoder qdec_fresh) world0 eq_refl) as [H1 H2].
  split; [exact H1 | apply H2; reflexivity].
Defined.

(** X7 : Restarting.  [stop()] on a running instance followed by [start()]
    on the same instance returns [MICROBIT_OK]: the instance is running
    again and [ENABLE] is 1.  In both classes. *)
Theorem restart_after_stop (this : Component) (d : Driver) (w : World) :
  drv_running d = true ->
  let r1 := drv_stop this d w in
  let r2 := drv_start this (fst r1) (snd r1) in
  fst (fst r2) = MICROBIT_OK /\ drv_running (snd (fst r2)) = true /\
  NRF_QDEC (snd r2) ENABLE = 1.
Proof.
  intros Hr. cbv zeta.
  destruct (drv_stop_releases this d w Hr) as [Hr1 He1].
  now apply drv_start_ok.
Qed.

Lemma restart_after_stop_witness :
  fst (fst (drv_start this0
              (fst (drv_stop this0 (QDecoder (snd (fst qdec_started)))
                             (snd qdec_started)))
              (snd (drv_stop this0 (QDecoder (snd (fst qdec_started)))
                             (snd qdec_started)))))
    = MICROBIT_OK.
Proof.
  apply (restart_after_stop this0 (QDecoder (snd (fst qdec_started)))
                            (snd qdec_started)).
  reflexivity.
Defined.

(** X8 : [enableSystemTick()] on a running instance.  When periodic
    polling was not yet requested, the call registers the instance once
    (one [system_timer_add_component], no register access) and records the
    request; a second call in a row changes nothing at all.  In both
    classes. *)
Theorem enableSystemTick_running_once (this : Component) (w : World) :
  (forall s : QD.t,
      QD.running s = true -> QD.usingSystemTick s = false ->
      let r := QD.enableSystemTick this s w in
      snd r = mkWorld (NRF_QDEC w) (systemTickComponents w ++ [this])
                      (trace w ++ [TimerAdd this]) /\
      QD.usingSystemTick (fst r) = true /\ QD.running (fst r) = true /\
      QD.enableSystemTick this (fst r) (snd r) = r) /\
  (forall s : QDec.t,
      QDec.running s = true -> QDec.useSystemTick s = false ->
      let r := QDec.enableSystemTick this s w in
      snd r = mkWorld (NRF_QDEC w) (systemTickComponents w ++ [this])
                      (trace w ++ [TimerAdd this]) /\
      QDec.useSystemTick (fst r) = true /\ QDec.running (fst r) = true /\
      QDec.enableSystemTick this (fst r) (snd r) = r).
Proof.
  split; intros s Hr Ht; cbv zeta.
  - assert (E : QD.enableSystemTick this s w =
                (QD.set_status
                   (uint8_t (Z.lor (QD.status s)
                                   QDEC_STATUS_USING_SYSTEM_TICK)) s,
                 mkWorld (NRF_QDEC w) (systemTickComponents w ++ [this])
                         (trace w ++ [TimerAdd this]))).
    { unfold QD.enableSystemTick. rewrite Ht. cbn [negb]. run_M.
      unfold QD.running in *. cbn [QD.status QD.set_status].
      now rewrite running_after_set_tick, Hr. }
    rewrite E. cbn [fst snd].
    assert (Ht' : QD.usingSystemTick
                    (QD.set_status
                       (uint8_t (Z.lor (QD.status s)
                                       QDEC_STATUS_USING_SYSTEM_TICK)) s)
                  = true).
    { unfold QD.usingSystemTick. cbn [QD.status QD.set_status].
      apply tick_after_set_tick. }
    repeat split; try assumption.
    + unfold QD.running in *. cbn [QD.status QD.set_status].
      now rewrite running_after_set_tick.
    + unfold QD.enableSystemTick at 1. now rewrite Ht'.
  - assert (E : QDec.enableSystemTick this s w =
                (QDec.set_useSystemTick true s,
                 mkWorld (NRF_QDEC w) (systemTickComponents w ++ [this])
                         (trace w ++ [TimerAdd this]))).
    { unfold QDec.enableSystemTick. rewrite Ht. cbn [negb]. run_M.
      unfold QDec.running in *. cbn [QDec.status QDec.set_useSystemTick].
      now rewrite Hr. }
    rewrite E. cbn [fst snd]. repeat split; try assumption.
Qed.

Lemma enableSystemTick_running_once_witness :
  registrations this0
    (snd (QDec.enableSystemTick this0 (snd (fst qdec_started))
                                (snd qdec_started))) = 1%nat /\
  QD.usingSystemTick
    (fst (QD.enableSystemTick this0 (snd (fst qd_started)) (snd qd_started)))
    = true.
Proof.
  destruct (enableSystemTick_running_once this0 (snd qdec_started))
    as [_ Hb].
  destruct (enableSystemTick_running_once this0 (snd qd_started))
    as [Ha _].
  split.
  - destruct (Hb (snd (fst qdec_started)) eq_refl eq_refl) as (-> & _).
    reflexivity.
  - now destruct (Ha (snd (fst qd_started)) eq_refl eq_refl) as (_ & H & _).
Defined.

(** X9 : [disableSystemTick()] withdraws what [enableSystemTick()] asked
    for.  After [enableSystemTick()] then [disableSystemTick()] on an
    instance that had not requested polling, polling is not requested, the
    running flag and every register are as before, and the component table
    holds every address as often as before; on a stopped instance the two
    calls leave the world untouched.  In both classes. *)
Theorem enable_then_disable (this : Component) (w : World) :
  (forall s : QD.t,
      QD.usingSystemTick s = false ->
      let r1 := QD.enableSystemTick this s w in
      let r2 := QD.disableSystemTick this (fst r1) (snd r1) in
      QD.usingSystemTick (fst r2) = false /\
      QD.running (fst r2) = QD.running s /\
      NRF_QDEC (snd r2) = NRF_QDEC w /\
      (forall c, registrations c (snd r2) = registrations c w) /\
      (QD.running s = false -> snd r2 = w)) /\
  (forall s : QDec.t,
      QDec.useSystemTick s = false ->
      let r1 := QDec.enableSystemTick this s w in
      let r2 := QDec.disableSystemTick this (fst r1) (snd r1) in
      QDec.useSystemTick (fst r2) = false /\
      QDec.running (fst r2) = QDec.running s /\
      NRF_QDEC (snd r2) = NRF_QDEC w /\
      (forall c, registrations c (snd r2) = registrations c w) /\
      (QDec.running s = false -> snd r2 = w)).
Proof.
  assert (Hcount : forall c l,
             count_occ Nat.eq_dec (remove_first this (l ++ [this])) c =
             count_occ Nat.eq_dec l c).
  { intros c l. destruct (Nat.eq_dec c this) as [->|Hne].
    - rewrite count_remove_first, count_app_one, Nat.eqb_refl. lia.
    - rewrite count_remove_first_other by assumption.
      rewrite count_app_one. destruct (Nat.eqb_spec this c); [congruence|lia]. }
  split; intros s Ht; cbv zeta.
  - unfold QD.enableSystemTick. rewrite Ht. cbn [negb].
    unfold QD.disableSystemTick. run_M.
    unfold QD.running, QD.usingSystemTick in *.
    cbn [QD.status QD.set_status].
    rewrite !running_after_set_tick.
    destruct (test_flag (QD.status s) MICROBIT_COMPONENT_RUNNING) eqn:Hr;
      cbn [fst snd QD.status QD.set_status];
      rewrite ?running_after_clear_tick, ?running_after_set_tick, ?Hr;
      cbn [fst snd QD.status QD.set_status NRF_QDEC];
      rewrite ?tick_after_clear_tick, ?running_after_clear_tick,
        ?running_after_set_tick;
      repeat split; try assumption; try discriminate;
      try (now destruct w);
      intros c; unfold registrations; cbn [systemTickComponents];
      apply Hcount.
  - unfold QDec.enableSystemTick. rewrite Ht. cbn [negb].
    unfold QDec.disableSystemTick. run_M.
    unfold QDec.running in *.
    cbn [QDec.status QDec.useSystemTick QDec.set_useSystemTick].
    destruct (test_flag (QDec.status s) MICROBIT_COMPONENT_RUNNING) eqn:Hr;
      cbn [fst snd QDec.status QDec.useSystemTick QDec.set_useSystemTick
           NRF_QDEC];
      rewrite ?Hr;
      cbn [fst snd QDec.status QDec.useSystemTick QDec.set_useSystemTick
           NRF_QDEC];
      repeat split; try assumption; try discriminate;
      try (now destruct w);
      intros c; unfold registrations; cbn [systemTickComponents];
      apply Hcount.
Qed.

Lemma enable_then_disable_witness :
  registrations this0
    (snd (QD.disableSystemTick this0
            (fst (QD.enableSystemTick this0 (snd (fst qd_started))
                                      (snd qd_started)))
            (snd (QD.enableSystemTick this0 (snd (fst qd_started))
                                      (snd qd_started)))))
    = registrations this0 (snd qd_started) /\
  snd (QDec.disableSystemTick this0
         (fst (QDec.enableSystemTick this0 qdec_fresh world0))
         (snd (QDec.enableSystemTick this0 qdec_fresh world0))) = world0.
Proof.
  split.
  - destruct (proj1 (enable_then_disable this0 (snd qd_started))
                    (snd (fst qd_started)) eq_refl) as (_ & _ & _ & H & _).
    apply H.
  - destruct (proj2 (enable_then_disable this0 world0) qdec_fresh eq_refl)
      as (_ & _ & _ & _ & H).
    apply H. reflexivity.
Defined.

Lemma uint16_t_range (x : Z) : 0 <= uint16_t x <= UINT16_MAX.
Proof.
  unfold uint16_t, UINT16_MAX.
  pose proof (Z.mod_pos_bound x (2 ^ 16) ltac:(lia)) as H.
  change (2 ^ 16) with 65536 in H. change (2 ^ 16) with 65536. lia.
Qed.

Lemma uint32_t_range (x : Z) : 0 <= uint32_t x < 2 ^ 32.
Proof. unfold uint32_t. apply Z.mod_pos_bound. lia. Qed.

Lemma in_accdbl_0 : in_accdbl 0.
Proof. unfold in_accdbl, UINT16_MAX. lia. Qed.

(** A poll that finds both accumulators empty leaves a well-typed
    instance as it was. *)
Lemma QD_poll_empty (s : QD.t) (w : World) :
  NRF_QDEC w ACC = 0 -> NRF_QDEC w ACCDBL = 0 ->
  in_int64 (QD.position s) -> 0 <= QD.errors s <= UINT16_MAX ->
  QD.position (fst (QD.poll s w)) = QD.position s /\
  QD.errors (fst (QD.poll s w)) = QD.errors s.
Proof.
  intros Ha Hd Hp He. destruct (QD_poll_eq s w) as (-> & _).
  cbn [QD.position QD.errors QD.set_errors QD.set_position].
  rewrite Ha, Hd. split.
  - change (int32_t 0) with 0. rewrite Z.add_0_r. now apply int64_t_small.
  - change 0 with (uint32_t 0) at 1.
    rewrite (QD_saturating_step _ 0 He in_accdbl_0).
    unfold UINT16_MAX in *. lia.
Qed.

Lemma QDec_poll_empty (s : QDec.t) (w : World) :
  NRF_QDEC w ACC = 0 -> NRF_QDEC w ACCDBL = 0 ->
  in_int64 (QDec.position s) -> 0 <= QDec.errors s < 2 ^ 32 ->
  QDec.position (fst (QDec.poll s w)) = QDec.position s /\
  QDec.errors (fst (QDec.poll s w)) = QDec.errors s.
Proof.
  intros Ha Hd Hp He. destruct (QDec_poll_eq s w) as (-> & _).
  cbn [QDec.position QDec.errors QDec.set_errors QDec.set_position].
  rewrite Ha, Hd. split.
  - change (int32_t 0) with 0. rewrite Z.add_0_r. now apply int64_t_small.
  - rewrite Z.add_0_r. now apply uint32_t_small.
Qed.

(** X10 : Nothing is counted twice.  A second [poll()] with no movement of
    the encoder in between returns the position and the error count of the
    first: what a poll has drained is gone from the hardware.  In both
    classes, from any instance and any register contents. *)
Theorem poll_again_changes_nothing (w : World) :
  (forall s : QD.t,
      let r1 := QD.poll s w in
      let r2 := QD.poll (fst r1) (snd r1) in
      QD.getPosition (fst r2) = QD.getPosition (fst r1) /\
      QD.getErrors (fst r2) = QD.getErrors (fst r1)) /\
  (forall s : QDec.t,
      let r1 := QDec.poll s w in
      let r2 := QDec.poll (fst r1) (snd r1) in
      QDec.getPosition (fst r2) = QDec.getPosition (fst r1) /\
      QDec.getErrors (fst r2) = QDec.getErrors (fst r1)).
Proof.
  split; intros s; cbv zeta.
  - destruct (QD_poll_eq s w) as (E & Ha & Hd & _).
    apply QD_poll_empty; try assumption; rewrite E;
      cbn [QD.position QD.errors QD.set_errors QD.set_position].
    + apply int64_t_range.
    + apply uint16_t_range.
  - destruct (QDec_poll_eq s w) as (E & Ha & Hd & _).
    apply QDec_poll_empty; try assumption; rewrite E;
      cbn [QDec.position QDec.errors QDec.set_errors QDec.set_position].
    + apply int64_t_range.
    + apply uint32_t_range.
Qed.

(** X11 : [resetPosition()] does not empty the hardware.  A delta the
    hardware had accumulated before [resetPosition(v)] is added by the
    next [poll()]: the position is then [v] plus that delta (for a 32-bit
    signed delta and a sum that is a 64-bit signed value).  In both
    classes. *)
Theorem resetPosition_then_poll (v d e : Z) (w : World) :
  in_int32 d -> in_int64 (v + d) ->
  (forall s : QD.t,
      let r1 := QD.resetPosition v s (hw_accumulate d e w) in
      QD.getPosition (fst r1) = v /\
      QD.getPosition (fst (QD.poll (fst r1) (snd r1))) = v + d) /\
  (forall s : QDec.t,
      let r1 := QDec.resetPosition v s (hw_accumulate d e w) in
      QDec.getPosition (fst r1) = v /\
      QDec.getPosition (fst (QDec.poll (fst r1) (snd r1))) = v + d).
Proof.
  intros Hd Hv. split; intros s; cbv zeta; (split; [reflexivity|]).
  - unfold QD.resetPosition, ret. cbn [fst snd].
    destruct (QD_poll_eq (QD.set_position v s) (hw_accumulate d e w))
      as (-> & _).
    cbn [QD.getPosition QD.position QD.set_errors QD.set_position
         hw_accumulate NRF_QDEC upd Reg_eqb].
    rewrite (int32_t_uint32_t d Hd). now apply int64_t_small.
  - unfold QDec.resetPosition, ret. cbn [fst snd].
    destruct (QDec_poll_eq (QDec.set_position v s) (hw_accumulate d e w))
      as (-> & _).
    cbn [QDec.getPosition QDec.position QDec.set_errors QDec.set_position
         hw_accumulate NRF_QDEC upd Reg_eqb].
    rewrite (int32_t_uint32_t d Hd). now apply int64_t_small.
Qed.

Lemma resetPosition_then_poll_witness :
  QD.getPosition
    (fst (QD.poll (fst (QD.resetPosition 100 qd_moved
                                         (hw_accumulate (-4) 0 world0)))
                  (snd (QD.resetPosition 100 qd_moved
                                         (hw_accumulate (-4) 0 world0)))))
    = 96 /\
  QDec.getPosition
    (fst (QDec.poll (fst (QDec.resetPosition 100 qdec_moved
                                             (hw_accumulate (-4) 0 world0)))
                    (snd (QDec.resetPosition 100 qdec_moved
                                             (hw_accumulate (-4) 0 world0)))))
    = 96.
Proof.
  assert (H1 : in_int32 (-4)) by (unfold in_int32; lia).
  assert (H2 : in_int64 (100 + -4)) by (unfold in_int64; lia).
  destruct (resetPosition_then_poll 100 (-4) 0 world0 H1 H2) as [Ha Hb].
  split.
  - apply (Ha qd_moved).
  - apply (Hb qdec_moved).
Defined.

(** X12 : [start()] discards what accumulated while idle.  Whatever the
    accumulators hold when [start()] is called, after a [start()] that
    succeeds a [poll()] with no movement in between leaves position and
    error count as they were before the start.  In both classes, for
    members within the range of their types. *)
Theorem start_discards_idle_counts (this : Component) (w : World) :
  NRF_QDEC w ENABLE = 0 ->
  (forall s : QD.t,
      QD.running s = false ->
      in_int64 (QD.position s) -> 0 <= QD.errors s <= UINT16_MAX ->
      let r := QD.start this s w in
      fst (fst r) = MICROBIT_OK /\
      QD.getPosition (fst (QD.poll (snd (fst r)) (snd r))) = QD.getPosition s /\
      QD.getErrors (fst (QD.poll (snd (fst r)) (snd r))) = QD.getErrors s) /\
  (forall s : QDec.t,
      QDec.running s = false ->
      in_int64 (QDec.position s) -> 0 <= QDec.errors s < 2 ^ 32 ->
      let r := QDec.start this s w in
      fst (fst r) = MICROBIT_OK /\
      QDec.getPosition (fst (QDec.poll (snd (fst r)) (snd r)))
        = QDec.getPosition s /\
      QDec.getErrors (fst (QDec.poll (snd (fst r)) (snd r)))
        = QDec.getErrors s).
Proof.
  intros He. split; intros s Hr Hp Herr; cbv zeta.
  - destruct (QD_start_ok this s w He Hr) as (w' & -> & _ & _ & Ha & Hd & _).
    cbn [fst snd]. split; [reflexivity|].
    exact (QD_poll_empty (QD.set_status _ s) w' Ha Hd Hp Herr).
  - destruct (QDec_start_ok this s w He Hr)
      as (w' & -> & _ & _ & Ha & Hd & _).
    cbn [fst snd]. split; [reflexivity|].
    exact (QDec_poll_empty (QDec.set_status _ s) w' Ha Hd Hp Herr).
Qed.

Lemma start_discards_idle_counts_witness :
  NRF_QDEC world_dirty ACC = 9 /\
  QD.getPosition
    (fst (QD.poll (snd (fst (QD.start this0 qd_moved world_dirty)))
                  (snd (QD.start this0 qd_moved world_dirty)))) = 42 /\
  QDec.getErrors
    (fst (QDec.poll (snd (fst (QDec.start this0 qdec_moved world_dirty)))
                    (snd (QDec.start this0 qdec_moved world_dirty)))) = 7.
Proof.
  destruct (start_discards_idle_counts this0 world_dirty eq_refl) as [Ha Hb].
  split; [reflexivity|]. split.
  - apply (Ha qd_moved); [reflexivity | | ];
      unfold in_int64, UINT16_MAX; cbn; lia.
  - apply (Hb qdec_moved); [reflexivity | | ]; unfold in_int64; cbn; lia.
Defined.

(** The error count of [MicroBitQDec] after the polls is the 32-bit
    reduction of the initial count plus the drained counts. *)
Lemma QDec_polls_errors_wrap (drains : list (Z * Z)) :
  Forall (fun de => 0 <= snd de < 2 ^ 32) drains ->
  forall (s : QDec.t) (w : World),
    0 <= QDec.errors s < 2 ^ 32 ->
    QDec.errors (fst (QDec.polls drains s w)) =
    uint32_t (QDec.errors s + Zsum (map snd drains)).
Proof.
  induction 1 as [|[d e] rest Hd _ IH]; intros s w Hs.
  - cbn. rewrite Z.add_0_r. symmetry. now apply uint32_t_small.
  - rewrite QDec_polls_cons. rewrite IH.
    + rewrite QDec_poll_errors_wrap. cbn [snd] in Hd.
      rewrite (uint32_t_small e Hd), uint32_t_add_l.
      cbn [map snd Zsum fold_right]. f_equal.
      fold (Zsum (map snd rest)). ring.
    + rewrite QDec_poll_errors_wrap. apply uint32_t_range.
Qed.

(** X13 : The error count of [MicroBitQDec] is the plain sum below
    [2^32].  For 32-bit counts drained one per poll, [getErrors()] after
    the polls is the initial count plus the drained counts whenever that
    sum is below [2^32]. *)
Theorem QDec_errors_sum (drains : list (Z * Z)) (s : QDec.t) (w : World) :
  Forall (fun de => 0 <= snd de < 2 ^ 32) drains ->
  0 <= QDec.errors s ->
  QDec.errors s + Zsum (map snd drains) < 2 ^ 32 ->
  QDec.getErrors (fst (QDec.polls drains s w)) =
  QDec.errors s + Zsum (map snd drains).
Proof.
  intros Hd Hs Hsum.
  assert (H0 : 0 <= Zsum (map snd drains)).
  { clear -Hd. induction Hd as [|[d e] l Hx _ IHl]; cbn; [lia|].
    cbn in Hx. fold (Zsum (map snd l)). lia. }
  unfold QDec.getErrors. rewrite QDec_polls_errors_wrap by (assumption || lia).
  apply uint32_t_small. lia.
Qed.

Lemma QDec_errors_sum_witness :
  QDec.getErrors (fst (QDec.polls [(1, 3); (-1, 15); (0, 0)] qdec_moved world0))
    = 25.
Proof.
  assert (Hd : Forall (fun de => 0 <= snd de < 2 ^ 32)
                      [(1, 3); (-1, 15); (0, 0)]).
  { repeat apply Forall_cons; try apply Forall_nil; cbn [snd]; lia. }
  rewrite (QDec_errors_sum _ qdec_moved world0 Hd); [reflexivity | | ];
    cbn; lia.
Defined.

Lemma test_flag_uint8_t (x m : Z) :
  0 <= m < 8 -> test_flag (uint8_t x) (2 ^ m) = test_flag x (2 ^ m).
Proof.
  intros Hm. rewrite !test_flag_pow2 by lia. now apply testbit_uint8_t.
Qed.

Lemma test_flag_land_lnot_other (x n m : Z) :
  0 <= n -> 0 <= m ->
  test_flag (Z.land x (Z.lnot (2 ^ n))) (2 ^ m) =
  (test_flag x (2 ^ m) && negb (n =? m)).
Proof.
  intros Hn Hm.
  rewrite !test_flag_pow2, Z.land_spec, Z.lnot_spec by assumption.
  now rewrite Z.pow2_bits_eqb by assumption.
Qed.

(** The flags the first constructor stores are the flags it was given. *)
Lemma QD_new_flags (pA pB pL : MicroBitPin) (delay flags : Z) (w : World) :
  let s := fst (QD.new pA pB pL delay flags w) in
  test_flag (QD.status s) QDEC_STATUS_LED_ACTIVE_LOW =
    test_flag flags QDEC_STATUS_LED_ACTIVE_LOW /\
  test_flag (QD.status s) QDEC_STATUS_USING_DEBOUNCE =
    test_flag flags QDEC_STATUS_USING_DEBOUNCE.
Proof.
  cbv zeta. unfold QD.new, ret. cbn [fst QD.status]. split.
  - etransitivity; [apply (test_flag_clear (uint8_t flags) 0 3); lia|].
    rewrite andb_true_r. apply (test_flag_uint8_t flags 3). lia.
  - etransitivity; [apply (test_flag_clear (uint8_t flags) 0 2); lia|].
    rewrite andb_true_r. apply (test_flag_uint8_t flags 2). lia.
Qed.

(** The second constructor drops [QDEC_STATUS_LED_ACTIVE_LOW]. *)
Lemma QD_new_noLED_flags (pA pB : MicroBitPin) (flags : Z) (w : World) :
  let s := fst (QD.new_noLED pA pB flags w) in
  test_flag (QD.status s) QDEC_STATUS_LED_ACTIVE_LOW = false /\
  test_flag (QD.status s) QDEC_STATUS_USING_DEBOUNCE =
    test_flag flags QDEC_STATUS_USING_DEBOUNCE.
Proof.
  cbv zeta. unfold QD.new_noLED, ret. cbn [fst QD.status]. split.
  - etransitivity;
      [apply (test_flag_clear
                (Z.land (uint8_t flags) (Z.lnot MICROBIT_COMPONENT_RUNNING))
                3 3); lia|].
    apply andb_false_r.
  - etransitivity;
      [apply (test_flag_clear
                (Z.land (uint8_t flags) (Z.lnot MICROBIT_COMPONENT_RUNNING))
                3 2); lia|].
    rewrite andb_true_r.
    etransitivity;
      [apply (test_flag_land_lnot_other (uint8_t flags) 0 2); lia|].
    rewrite andb_true_r. apply (test_flag_uint8_t flags 2). lia.
Qed.

(** The configuration registers after a [start()] that succeeds. *)
Lemma QD_start_registers (this : Component) (s : QD.t) (w : World) :
  NRF_QDEC w ENABLE = 0 -> QD.running s = false ->
  let q := NRF_QDEC (snd (QD.start this s w)) in
  fst (fst (QD.start this s w)) = MICROBIT_OK /\
  q LEDPOL =
    (if test_flag (QD.status s) QDEC_STATUS_LED_ACTIVE_LOW then 0 else 1) /\
  q DBFEN =
    (if test_flag (QD.status s) QDEC_STATUS_USING_DEBOUNCE then 1 else 0) /\
  q LEDPRE = uint32_t (QD.LEDDelay s) /\
  q PSELLED = uint32_t (name (QD.LED s)) /\
  q PSELA = uint32_t (name (QD.phaseA s)) /\
  q PSELB = uint32_t (name (QD.phaseB s)) /\
  q REPORTPER = 7 /\ q SHORTS = 0 /\ q INTENCLR = 4294967295 /\
  q TASKS_START = 1.
Proof.
  intros He Hr. cbv zeta. unfold QD.start. run_M. rewrite He, Hr.
  cbn [Z.eqb negb orb].
  destruct (negb (name (QD.LED s) =? NC));
    match goal with
    | |- context [if QD.usingSystemTick ?x then _ else _] =>
        destruct (QD.usingSystemTick x)
    end;
    cbn [fst snd NRF_QDEC];
    destruct (test_flag (QD.status s) QDEC_STATUS_LED_ACTIVE_LOW);
    destruct (test_flag (QD.status s) QDEC_STATUS_USING_DEBOUNCE);
    repeat split; reflexivity.
Qed.

Lemma QDec_start_registers (this : Component) (s : QDec.t) (w : World) :
  NRF_QDEC w ENABLE = 0 -> QDec.running s = false ->
  let q := NRF_QDEC (snd (QDec.start this s w)) in
  fst (fst (QDec.start this s w)) = MICROBIT_OK /\
  q LEDPOL = (if QDec.activeHighLED s then 1 else 0) /\
  q DBFEN = (if QDec.useDebounce s then 1 else 0) /\
  q LEDPRE = uint32_t (QDec.LEDDelay s) /\
  q PSELLED = uint32_t (name (QDec.LED s)) /\
  q PSELA = uint32_t (name (QDec.phaseA s)) /\
  q PSELB = uint32_t (name (QDec.phaseB s)) /\
  q REPORTPER = 7 /\ q SHORTS = 0 /\ q INTENCLR = 4294967295 /\
  q TASKS_START = 1.
Proof.
  intros He Hr. cbv zeta. unfold QDec.start. run_M. rewrite He, Hr.
  cbn [Z.eqb negb orb].
  destruct (negb (name (QDec.LED s) =? NC));
    destruct (QDec.useSystemTick s);
    cbn [fst snd NRF_QDEC];
    destruct (QDec.activeHighLED s); destruct (QDec.useDebounce s);
    repeat split; reflexivity.
Qed.

Lemma uint32_t_uint8_t (x : Z) : uint32_t (uint8_t x) = uint8_t x.
Proof.
  apply uint32_t_small. unfold uint8_t.
  pose proof (Z.mod_pos_bound x (2 ^ 8) ltac:(lia)) as H.
  change (2 ^ 8) with 256 in *. change (2 ^ 32) with 4294967296. lia.
Qed.

(** X14 : From the constructor arguments of [MicroBitQuadratureDecoder]
    to the registers.  An instance constructed with any [flags] (the
    running bit included) starts on a free peripheral with [MICROBIT_OK],
    and then: [LEDPOL] is 0 exactly when [QDEC_STATUS_LED_ACTIVE_LOW] was
    given, [DBFEN] is 1 exactly when [QDEC_STATUS_USING_DEBOUNCE] was,
    [LEDPRE] is the delay as a byte, the three pin selects hold the pin
    names and [SAMPLEPER] is 0 for the initial period of 128.  The
    constructor without LED gives [LEDPOL] = 1 whatever the flags, the
    not-connected pin in [PSELLED] and no delay. *)
Theorem QD_constructor_to_registers
        (this : Component) (pA pB pL : MicroBitPin) (delay flags : Z)
        (w : World) :
  NRF_QDEC w ENABLE = 0 ->
  (let r := QD.start this (fst (QD.new pA pB pL delay flags w)) w in
   fst (fst r) = MICROBIT_OK /\
   NRF_QDEC (snd r) LEDPOL =
     (if test_flag flags QDEC_STATUS_LED_ACTIVE_LOW then 0 else 1) /\
   NRF_QDEC (snd r) DBFEN =
     (if test_flag flags QDEC_STATUS_USING_DEBOUNCE then 1 else 0) /\
   NRF_QDEC (snd r) LEDPRE = uint8_t delay /\
   NRF_QDEC (snd r) PSELLED = uint32_t (name pL) /\
   NRF_QDEC (snd r) PSELA = uint32_t (name pA) /\
   NRF_QDEC (snd r) PSELB = uint32_t (name pB) /\
   NRF_QDEC (snd r) SAMPLEPER = 0) /\
  (let r := QD.start this (fst (QD.new_noLED pA pB flags w)) w in
   fst (fst r) = MICROBIT_OK /\
   NRF_QDEC (snd r) LEDPOL = 1 /\
   NRF_QDEC (snd r) DBFEN =
     (if test_flag flags QDEC_STATUS_USING_DEBOUNCE then 1 else 0) /\
   NRF_QDEC (snd r) LEDPRE = 0 /\
   NRF_QDEC (snd r) PSELLED = 4294967295 /\
   NRF_QDEC (snd r) PSELA = uint32_t (name pA) /\
   NRF_QDEC (snd r) PSELB = uint32_t (name pB) /\
   NRF_QDEC (snd r) SAMPLEPER = 0).
Proof.
  intros He. split; cbv zeta.
  - destruct (QD_new_fresh pA pB pL delay flags w) as (Hr & _).
    destruct (QD_new_flags pA pB pL delay flags w) as [Hl Hd].
    destruct (QD_start_registers this _ w He Hr)
      as (Hok & H1 & H2 & H3 & H4 & H5 & H6 & _).
    destruct (QD_start_ok this _ w He Hr) as (w' & E & _ & Hs & _).
    rewrite E in *. cbn [fst snd] in *.
    rewrite H1, H2, H3, Hl, Hd, Hs.
    repeat split; try assumption. apply uint32_t_uint8_t.
  - destruct (QD_new_noLED_fresh pA pB flags w) as (Hr & _).
    destruct (QD_new_noLED_flags pA pB flags w) as [Hl Hd].
    destruct (QD_start_registers this _ w He Hr)
      as (Hok & H1 & H2 & H3 & H4 & H5 & H6 & _).
    destruct (QD_start_ok this _ w He Hr) as (w' & E & _ & Hs & _).
    rewrite E in *. cbn [fst snd] in *.
    rewrite H1, H2, H3, Hl, Hd, Hs.
    repeat split; assumption.
Qed.

Lemma QD_constructor_to_registers_witness :
  NRF_QDEC
    (snd (QD.start this0
            (fst (QD.new pinA pinB pinLED 20
                         (Z.lor QDEC_STATUS_LED_ACTIVE_LOW
                                MICROBIT_COMPONENT_RUNNING) world0))
            world0)) LEDPOL = 0 /\
  NRF_QDEC
    (snd (QD.start this0
            (fst (QD.new_noLED pinA pinB QDEC_STATUS_LED_ACTIVE_LOW world0))
            world0)) LEDPOL = 1.
Proof.
  split.
  - destruct (proj1 (QD_constructor_to_registers this0 pinA pinB pinLED 20
                       (Z.lor QDEC_STATUS_LED_ACTIVE_LOW
                              MICROBIT_COMPONENT_RUNNING) world0 eq_refl))
      as (_ & H & _).
    exact H.
  - destruct (proj2 (QD_constructor_to_registers this0 pinA pinB pinLED 0
                       QDEC_STATUS_LED_ACTIVE_LOW world0 eq_refl))
      as (_ & H & _).
    exact H.
Defined.

(** X15 : From the [QDecExtraConfig] of [MicroBitQDec] to the registers.
    An instance constructed from a configuration starts on a free
    peripheral with [MICROBIT_OK], and then [LEDPOL] is 1 exactly when
    [activeHighLED], [DBFEN] is 1 exactly when [useDebounce], [LEDPRE] is
    [LEDDelay] as a byte and the pin selects hold the pin names; without a
    configuration the defaults apply: [LEDPOL] 1, [DBFEN] 0, [LEDPRE] 0
    and [SAMPLEPER] 0. *)
Theorem QDec_config_to_registers
        (this : Component) (g : Z) (pA pB pL : MicroBitPin) (w : World) :
  NRF_QDEC w ENABLE = 0 ->
  (forall cfg : QDecExtraConfig,
      let r := QDec.start this
                 (fst (QDec.new g pA pB pL (Some cfg) w)) w in
      fst (fst r) = MICROBIT_OK /\
      NRF_QDEC (snd r) LEDPOL = (if cfg_activeHighLED cfg then 1 else 0) /\
      NRF_QDEC (snd r) DBFEN = (if cfg_useDebounce cfg then 1 else 0) /\
      NRF_QDEC (snd r) LEDPRE = uint8_t (cfg_LEDDelay cfg) /\
      NRF_QDEC (snd r) PSELLED = uint32_t (name pL) /\
      NRF_QDEC (snd r) PSELA = uint32_t (name pA) /\
      NRF_QDEC (snd r) PSELB = uint32_t (name pB)) /\
  (let r := QDec.start this (fst (QDec.new g pA pB pL None w)) w in
   fst (fst r) = MICROBIT_OK /\
   NRF_QDEC (snd r) LEDPOL = 1 /\ NRF_QDEC (snd r) DBFEN = 0 /\
   NRF_QDEC (snd r) LEDPRE = 0 /\ NRF_QDEC (snd r) SAMPLEPER = 0).
Proof.
  intros He. split; [intros cfg|]; cbv zeta.
  - destruct (QDec_start_registers this
                (fst (QDec.new g pA pB pL (Some cfg) w)) w He eq_refl)
      as (Hok & H1 & H2 & H3 & H4 & H5 & H6 & _).
    cbn [QDec.new ret fst QDec.activeHighLED QDec.useDebounce QDec.LEDDelay
         QDec.LED QDec.phaseA QDec.phaseB] in *.
    rewrite H3. repeat split; try assumption. apply uint32_t_uint8_t.
  - destruct (QDec_start_registers this
                (fst (QDec.new g pA pB pL None w)) w He eq_refl)
      as (Hok & H1 & H2 & H3 & _).
    destruct (QDec_start_ok this (fst (QDec.new g pA pB pL None w)) w He
                            eq_refl) as (w' & E & _ & Hs & _).
    rewrite E in *. cbn [fst snd] in *.
    repeat split; try assumption.
Qed.

Lemma QDec_config_to_registers_witness :
  NRF_QDEC
    (snd (QDec.start this0
            (fst (QDec.new 0 pinA pinB pinLED (Some cfg_100us) world0))
            world0)) LEDPOL = 1 /\
  NRF_QDEC
    (snd (QDec.start this0
            (fst (QDec.new 0 pinA pinB pinLED None world0)) world0))
    SAMPLEPER = 0.
Proof.
  destruct (QDec_config_to_registers this0 0 pinA pinB pinLED world0 eq_refl)
    as [Ha Hb].
  split.
  - destruct (Ha cfg_100us) as (_ & H & _). exact H.
  - destruct Hb as (_ & _ & _ & _ & H). exact H.
Defined.

(** X16 : What [stop()] leaves.  After [stop()] the instance is not
    running; if it was running, [TASKS_STOP] has been triggered and
    [ENABLE] is 0; if it was not, the instance and every register are as
    before; position and error count are never touched; and a second
    [stop()] changes neither the instance nor any register.  In both
    classes. *)
Theorem stop_releases (this : Component) (w : World) :
  (forall s : QD.t,
      let r := QD.stop this s w in
      QD.running (fst r) = false /\
      QD.getPosition (fst r) = QD.getPosition s /\
      QD.getErrors (fst r) = QD.getErrors s /\
      (QD.running s = true ->
       NRF_QDEC (snd r) ENABLE = 0 /\ NRF_QDEC (snd r) TASKS_STOP = 1) /\
      (QD.running s = false -> fst r = s /\ NRF_QDEC (snd r) = NRF_QDEC w) /\
      fst (QD.stop this (fst r) (snd r)) = fst r /\
      NRF_QDEC (snd (QD.stop this (fst r) (snd r))) = NRF_QDEC (snd r)) /\
  (forall s : QDec.t,
      let r := QDec.stop this s w in
      QDec.running (fst r) = false /\
      QDec.getPosition (fst r) = QDec.getPosition s /\
      QDec.getErrors (fst r) = QDec.getErrors s /\
      (QDec.running s = true ->
       NRF_QDEC (snd r) ENABLE = 0 /\ NRF_QDEC (snd r) TASKS_STOP = 1) /\
      (QDec.running s = false ->
       fst r = s /\ NRF_QDEC (snd r) = NRF_QDEC w) /\
      fst (QDec.stop this (fst r) (snd r)) = fst r /\
      NRF_QDEC (snd (QDec.stop this (fst r) (snd r))) = NRF_QDEC (snd r)).
Proof.
  split; intros s; cbv zeta.
  - destruct (QD_stop_frame this s w) as [Hp He].
    destruct (QD_stop_idempotent this s w) as (Hi1 & Hi2 & _).
    repeat split; try assumption.
    + apply QD_stop_not_running.
    + now apply QD_stop_running.
    + now apply QD_stop_running.
    + rewrite (QD_stop_stopped this s w H). reflexivity.
    + rewrite (QD_stop_stopped this s w H).
      now destruct (QD.usingSystemTick s).
  - destruct (QDec_stop_frame this s w) as [Hp He].
    destruct (QDec_stop_idempotent this s w) as (Hi1 & Hi2 & _).
    repeat split; try assumption.
    + apply QDec_stop_not_running.
    + now apply QDec_stop_running.
    + now apply QDec_stop_running.
    + rewrite (QDec_stop_stopped this s w H). reflexivity.
    + rewrite (QDec_stop_stopped this s w H).
      now destruct (QDec.useSystemTick s).
Qed.

Lemma stop_releases_witness :
  NRF_QDEC (snd qd_started) ENABLE = 1 /\
  NRF_QDEC (snd (QD.stop this0 (snd (fst qd_started)) (snd qd_started)))
           ENABLE = 0 /\
  fst (QDec.stop this0 qdec_fresh world0) = qdec_fresh.
Proof.
  split; [reflexivity|]. split.
  - destruct (proj1 (stop_releases this0 (snd qd_started))
                    (snd (fst qd_started))) as (_ & _ & _ & H & _).
    apply H. reflexivity.
  - destruct (proj2 (stop_releases this0 world0) qdec_fresh)
      as (_ & _ & _ & _ & H & _).
    apply H. reflexivity.
Defined.
